(** * The music personality analyzer of app/music_personality.py

    A shallow embedding of [MusicPersonalityAnalyzer] and the properties its
    specification states about it.

    Python [float] arithmetic is kept behind a small numeric interface
    ([Num]) so that the analyzer is written once, as the source has it, and
    read at two number types:
    - [Exact]: rationals [Q], the arithmetic of the specification's real
      numbers;
    - [Binary64]: IEEE 754 binary64, the arithmetic CPython performs.

    Strings are Rocq [string]s (sequences of 8-bit characters); the model of
    [str.lower] and [str.split] is the ASCII one. *)

From Stdlib Require Import ZArith QArith Qround Lqa Lia List String Ascii Bool.
From Stdlib Require Import Floats Sorted Permutation Morphisms.
Import ListNotations.

Local Open Scope string_scope.
Local Open Scope list_scope.

(** ** Exceptions *)

Inductive exn : Type :=
| ZeroDivisionError
| StatisticsError
| KeyError (key : string).

Inductive result (A : Type) : Type :=
| Ok (a : A)
| Raise (e : exn).

Arguments Ok {A} a.
Arguments Raise {A} e.

Definition bind {A B : Type} (m : result A) (k : A -> result B) : result B :=
  match m with
  | Ok a => k a
  | Raise e => Raise e
  end.

Notation "x <- m ;; k" := (bind m (fun x => k))
  (at level 61, m at next level, right associativity).

(** [for x in xs: acc = body acc x], stopping at the first exception. *)
Fixpoint for_each {A S : Type} (xs : list A) (body : S -> A -> result S) (acc : S)
  : result S :=
  match xs with
  | [] => Ok acc
  | x :: xs' => acc' <- body acc x ;; for_each xs' body acc'
  end.

(** ** Strings: [str.lower], [in], [str.split] *)

Definition lower_char (c : ascii) : ascii :=
  let n := nat_of_ascii c in
  if (65 <=? n)%nat && (n <=? 90)%nat then ascii_of_nat (n + 32) else c.

Fixpoint lower (s : string) : string :=
  match s with
  | EmptyString => EmptyString
  | String c s' => String (lower_char c) (lower s')
  end.

(** [contains sub s] is Python's [sub in s]. *)
Fixpoint contains (sub s : string) : bool :=
  prefix sub s ||
  match s with
  | EmptyString => false
  | String _ s' => contains sub s'
  end.

(** The characters [str.split()] treats as separators. *)
Definition is_space (c : ascii) : bool :=
  let n := nat_of_ascii c in
  ((9 <=? n)%nat && (n <=? 13)%nat) || ((28 <=? n)%nat && (n <=? 32)%nat).

Fixpoint split_from (cur s : string) : list string :=
  match s with
  | EmptyString => if (String.length cur =? 0)%nat then [] else [cur]
  | String c s' =>
      if is_space c
      then (if (String.length cur =? 0)%nat then split_from "" s'
            else cur :: split_from "" s')
      else split_from (cur ++ String c "") s'
  end.

(** [split s] is [s.split()]: the maximal runs of non-space characters. *)
Definition split (s : string) : list string := split_from "" s.

(** ** Dictionaries

    A Python [dict] keeps its keys in insertion order, and the analyzer's
    output order depends on it, so a dictionary is an association list. *)

Definition dict (V : Type) : Type := list (string * V).

Definition keys {V} (d : dict V) : list string := map fst d.
Definition values {V} (d : dict V) : list V := map snd d.

(** [d.get(k, default)] *)
Fixpoint dict_get {V} (d : dict V) (k : string) (default : V) : V :=
  match d with
  | [] => default
  | (k', v) :: d' => if String.eqb k k' then v else dict_get d' k default
  end.

(** [d[k]] *)
Fixpoint dict_lookup {V} (d : dict V) (k : string) : result V :=
  match d with
  | [] => Raise (KeyError k)
  | (k', v) :: d' => if String.eqb k k' then Ok v else dict_lookup d' k
  end.

(** [d[k] = v]: an existing key keeps its place, a new one goes last. *)
Fixpoint dict_set {V} (d : dict V) (k : string) (v : V) : dict V :=
  match d with
  | [] => [(k, v)]
  | (k', v') :: d' =>
      if String.eqb k k' then (k', v) :: d' else (k', v') :: dict_set d' k v
  end.

(** ** Numbers *)

Class Num (T : Type) : Type := {
  (** the number a decimal literal or an [int] denotes, as a [T] *)
  of_Q : Q -> T;
  (** the exact value of a finite number; [None] for an infinity or a NaN *)
  exact : T -> option Q;
  add : T -> T -> T;
  mul : T -> T -> T;
  div : T -> T -> T;
  ltb : T -> T -> bool;
  leb : T -> T -> bool;
  (** [bool(x)]: a number is false exactly when it equals zero *)
  truthy : T -> bool;
  truthy_one : truthy (of_Q 1) = true
}.

Definition of_Z {T} `{Num T} (z : Z) : T := of_Q (inject_Z z).
Definition of_nat {T} `{Num T} (n : nat) : T := of_Z (Z.of_nat n).

(** Round half to even, to an integer. *)
Definition half_even (q : Q) : Z :=
  let f := Qfloor q in
  let r := (q - inject_Z f)%Q in
  match (r ?= 1 # 2)%Q with
  | Lt => f
  | Gt => (f + 1)%Z
  | Eq => if Z.even f then f else (f + 1)%Z
  end.

Section Numeric.
Context {T : Type} `{Num T}.

(** [x / y] on floats *)
Definition truediv (x y : T) : result T :=
  if truthy y then Ok (div x y) else Raise ZeroDivisionError.

(** [x / n] for a float [x] and an [int] [n] *)
Definition truediv_int (x : T) (n : Z) : result T :=
  if (n =? 0)%Z then Raise ZeroDivisionError else Ok (div x (of_Z n)).

(** [m / n] for two [int]s: the quotient, rounded once *)
Definition int_truediv (m n : Z) : result T :=
  if (n =? 0)%Z then Raise ZeroDivisionError
  else Ok (of_Q (inject_Z m / inject_Z n)).

(** [sum(xs)]: starts from the integer 0 and adds from the left.  (From
    CPython 3.12 on, [sum] carries a compensation term for floats; see
    [Binary64.compensated_sum].) *)
Definition sum (xs : list T) : T := fold_left add xs (of_Z 0).

(** [x or 1] *)
Definition or_one (x : T) : T := if truthy x then x else of_Z 1.

(** [round(x, 1)]: the decimal with one fractional digit nearest to the
    exact value of [x], ties to even; an infinity or a NaN is returned as
    it is.  (The sign of a zero result is not tracked.) *)
Definition round1 (x : T) : T :=
  match exact x with
  | Some q => of_Q (inject_Z (half_even (q * 10)) / 10)
  | None => x
  end.

Definition exact_sum (xs : list T) : option Q :=
  fold_left (fun acc x =>
               match acc, exact x with
               | Some a, Some q => Some (a + q)%Q
               | _, _ => None
               end) xs (Some 0%Q).

Definition is_finite (x : T) : bool :=
  match exact x with Some _ => true | None => false end.

(** [statistics.mean] of floats: the exact sum of the data divided by their
    number, rounded once at the end; with an infinity or a NaN among the
    data, the float sum of those special values divided by the count. *)
Definition mean (data : list T) : result T :=
  match data with
  | [] => Raise StatisticsError
  | _ :: _ =>
      match exact_sum data with
      | Some s => Ok (of_Q (s / inject_Z (Z.of_nat (List.length data))))
      | None =>
          Ok (div (sum (filter (fun x => negb (is_finite x)) data))
                  (of_nat (List.length data)))
      end
  end.

(** [statistics.mean] of [int]s: the exact mean (converted to a float when
    it is not an integer).  The conversion raises [OverflowError] when a
    mean that is not an integer lies outside the range of the floats; no
    popularity of the data model (an integer from 0 to 100) gets there, and
    that exception is not part of the model. *)
Definition mean_int (data : list Z) : result T :=
  match data with
  | [] => Raise StatisticsError
  | _ :: _ =>
      Ok (of_Q (inject_Z (fold_left Z.add data 0%Z)
                / inject_Z (Z.of_nat (List.length data))))
  end.
End Numeric.

(** ** Data model (app/models.py) *)

Module Artist.
Record t : Type := mk {
  id : string;
  name : string;
  genres : list string;
  popularity : Z
}.
End Artist.

Module Track.
Record t : Type := mk {
  id : string;
  name : string;
  artists : list Artist.t;
  popularity : Z
}.
End Track.

Module AudioFeatures.
Record t (T : Type) : Type := mk {
  id : string;
  danceability : T;
  energy : T;
  valence : T;
  tempo : T;
  acousticness : T;
  instrumentalness : T;
  liveness : T;
  speechiness : T
}.
Arguments mk {T}.
Arguments id {T}.
Arguments danceability {T}.
Arguments energy {T}.
Arguments valence {T}.
Arguments tempo {T}.
Arguments acousticness {T}.
Arguments instrumentalness {T}.
Arguments liveness {T}.
Arguments speechiness {T}.
End AudioFeatures.

Module PersonalityScore.
Record t (T : Type) : Type := mk {
  category : string;
  percentage : T;
  description : string;
  traits : list string
}.
Arguments mk {T}.
Arguments category {T}.
Arguments percentage {T}.
Arguments description {T}.
Arguments traits {T}.
End PersonalityScore.

(** An entry of the table [_get_personality_descriptions] returns. *)
Module PersonalityType.
Record t : Type := mk {
  description : string;
  traits : list string
}.
End PersonalityType.

(** ** The static tables *)

(** [self.genre_weights], in the order of the source. *)
Definition genre_weights : dict (dict Q) := [
  ("pop", [("performative", 0.8); ("pandering", 0.6)]);
  ("top 40", [("performative", 0.9); ("pandering", 0.8)]);
  ("mainstream", [("performative", 0.8); ("pandering", 0.7)]);
  ("experimental", [("avant_garde", 0.9); ("sophisticated", 0.7)]);
  ("noise", [("avant_garde", 0.8); ("sophisticated", 0.6)]);
  ("ambient", [("avant_garde", 0.6); ("sophisticated", 0.8)]);
  ("drone", [("avant_garde", 0.7); ("sophisticated", 0.7)]);
  ("free jazz", [("avant_garde", 0.8); ("sophisticated", 0.9)]);
  ("classical", [("sophisticated", 0.9); ("avant_garde", 0.3)]);
  ("jazz", [("sophisticated", 0.8); ("explorer", 0.6)]);
  ("baroque", [("sophisticated", 0.9); ("avant_garde", 0.4)]);
  ("opera", [("sophisticated", 0.8); ("performative", 0.4)]);
  ("chamber music", [("sophisticated", 0.9); ("avant_garde", 0.3)]);
  ("world", [("explorer", 0.8); ("sophisticated", 0.5)]);
  ("afrobeat", [("explorer", 0.7); ("trendsetter", 0.6)]);
  ("k-pop", [("explorer", 0.6); ("trendsetter", 0.8)]);
  ("bossa nova", [("explorer", 0.7); ("sophisticated", 0.6)]);
  ("cumbia", [("explorer", 0.8); ("trendsetter", 0.5)]);
  ("hyperpop", [("trendsetter", 0.9); ("avant_garde", 0.6)]);
  ("phonk", [("trendsetter", 0.8); ("explorer", 0.5)]);
  ("drill", [("trendsetter", 0.7); ("performative", 0.6)]);
  ("bedroom pop", [("trendsetter", 0.6); ("sophisticated", 0.7)])
]%Q.

(** The six archetypes, in the order [analyze_personality] initialises them. *)
Definition categories : list string :=
  ["performative"; "avant_garde"; "pandering"; "sophisticated"; "explorer";
   "trendsetter"].

Definition _get_personality_descriptions : dict PersonalityType.t := [
  ("performative",
   PersonalityType.mk
     "You love music that makes a statement and gets attention"
     ["Enjoys popular hits"; "Likes energetic music";
      "Values mainstream appeal"; "Appreciates polished production"]);
  ("avant_garde",
   PersonalityType.mk
     "You seek out experimental and boundary-pushing sounds"
     ["Appreciates complexity"; "Enjoys unusual sounds";
      "Values artistic innovation"; "Open to challenging music"]);
  ("pandering",
   PersonalityType.mk
     "You enjoy feel-good, accessible music that hits the right spots"
     ["Prefers catchy melodies"; "Likes danceable beats";
      "Values emotional appeal"; "Enjoys familiar structures"]);
  ("sophisticated",
   PersonalityType.mk
     "You appreciate nuanced, intellectually engaging music"
     ["Values musical complexity"; "Enjoys acoustic elements";
      "Appreciates craftsmanship"; "Prefers depth over intensity"]);
  ("explorer",
   PersonalityType.mk
     "You love discovering diverse sounds from around the world"
     ["Seeks musical diversity"; "Enjoys world music";
      "Values cultural exploration"; "Open to new experiences"]);
  ("trendsetter",
   PersonalityType.mk
     "You stay ahead of the curve with emerging sounds and artists"
     ["Discovers new genres early"; "Values innovation";
      "Enjoys cutting-edge production"; "Influences others' taste"])
].

(** ** The analyzer *)

Definition is_empty {A} (l : list A) : bool :=
  match l with [] => true | _ :: _ => false end.

(** [all_genres]: every artist's genre tags, in order, duplicates kept. *)
Definition all_genres (artists : list Artist.t) : list string :=
  flat_map Artist.genres artists.

(** The test of line 137:
    [genre_key in genre_lower or any(word in genre_lower for word in genre_key.split())] *)
Definition genre_matches (genre_key genre_lower : string) : bool :=
  contains genre_key genre_lower ||
  existsb (fun word => contains word genre_lower) (split genre_key).

Section Analyzer.
Context {T : Type} `{Num T}.

Definition _analyze_popularity (artists : list Artist.t) (tracks : list Track.t)
  : result (dict T) :=
  let artist_popularities :=
    map Artist.popularity
        (filter (fun a => negb (Artist.popularity a =? 0)%Z) artists) in
  let track_popularities :=
    map Track.popularity
        (filter (fun t => negb (Track.popularity t =? 0)%Z) tracks) in
  if is_empty artist_popularities && is_empty track_popularities then Ok []
  else
    avg_popularity <- mean_int (artist_popularities ++ track_popularities) ;;
    let scores : dict T := [] in
    if leb (of_Z 70) avg_popularity then
      let scores := dict_set scores "performative" (of_Q 0.8) in
      let scores := dict_set scores "pandering" (of_Q 0.6) in
      Ok scores
    else if leb avg_popularity (of_Z 30) then
      let scores := dict_set scores "avant_garde" (of_Q 0.7) in
      let scores := dict_set scores "sophisticated" (of_Q 0.5) in
      Ok scores
    else
      let scores := dict_set scores "explorer" (of_Q 0.6) in
      Ok scores.

(** [scores[category] += weight] *)
Definition add_weight (scores : dict T) (entry : string * Q) : result (dict T) :=
  let (category, weight) := entry in
  old <- dict_lookup scores category ;;
  Ok (dict_set scores category (add old (of_Q weight))).

(** The body of the loop over [self.genre_weights.items()] (lines 136-139). *)
Definition score_genre_key (genre_lower : string) (scores : dict T)
           (item : string * dict Q) : result (dict T) :=
  let (genre_key, weights) := item in
  if genre_matches genre_key genre_lower
  then for_each weights add_weight scores
  else Ok scores.

(** The body of the loop over [all_genres] (lines 134-139). *)
Definition score_genre (scores : dict T) (genre : string) : result (dict T) :=
  let genre_lower := lower genre in
  for_each genre_weights (score_genre_key genre_lower) scores.

(** [scores[category] = scores[category] / len(all_genres)] for every key. *)
Definition normalize_by (n : Z) (scores : dict T) : result (dict T) :=
  for_each (keys scores)
           (fun scores category =>
              old <- dict_lookup scores category ;;
              q <- truediv_int old n ;;
              Ok (dict_set scores category q))
           scores.

Definition _analyze_genres (artists : list Artist.t) : result (dict T) :=
  let all_genres := all_genres artists in
  if is_empty all_genres then Ok []
  else
    let scores : dict T := map (fun category => (category, of_Q 0.0)) categories in
    scores <- for_each all_genres score_genre scores ;;
    if negb (is_empty all_genres)
    then normalize_by (Z.of_nat (List.length all_genres)) scores
    else Ok scores.

Definition _analyze_audio_features (audio_features : list (AudioFeatures.t T))
  : result (dict T) :=
  if is_empty audio_features then Ok []
  else
    avg_energy <- mean (map AudioFeatures.energy audio_features) ;;
    avg_danceability <- mean (map AudioFeatures.danceability audio_features) ;;
    avg_valence <- mean (map AudioFeatures.valence audio_features) ;;
    avg_acousticness <- mean (map AudioFeatures.acousticness audio_features) ;;
    avg_instrumentalness <-
      mean (map AudioFeatures.instrumentalness audio_features) ;;
    let scores : dict T := [] in
    let scores :=
      if ltb (of_Q 0.7) avg_energy && ltb (of_Q 0.7) avg_danceability
      then dict_set (dict_set scores "pandering" (of_Q 0.7))
                    "performative" (of_Q 0.5)
      else scores in
    let scores :=
      if ltb (of_Q 0.6) avg_acousticness && ltb avg_energy (of_Q 0.4)
      then dict_set scores "sophisticated" (of_Q 0.8)
      else scores in
    let scores :=
      if ltb (of_Q 0.5) avg_instrumentalness
      then dict_set scores "avant_garde" (of_Q 0.6)
      else scores in
    let scores :=
      if ltb avg_valence (of_Q 0.3) || ltb (of_Q 0.9) avg_valence
      then dict_set scores "avant_garde"
                    (add (dict_get scores "avant_garde" (of_Z 0)) (of_Q 0.4))
      else scores in
    Ok scores.

Definition _analyze_diversity (artists : list Artist.t) (tracks : list Track.t)
  : result (dict T) :=
  let all_genres := all_genres artists in
  let unique_genres := Z.of_nat (List.length (nodup string_dec all_genres)) in
  let total_genres :=
    let n := Z.of_nat (List.length all_genres) in
    if (n =? 0)%Z then 1%Z else n in
  diversity_ratio <- int_truediv unique_genres total_genres ;;
  let scores : dict T := [] in
  if ltb (of_Q 0.7) diversity_ratio then
    let scores := dict_set scores "explorer" (of_Q 0.8) in
    let scores := dict_set scores "trendsetter" (of_Q 0.5) in
    Ok scores
  else if ltb diversity_ratio (of_Q 0.3) then
    let scores := dict_set scores "pandering" (of_Q 0.6) in
    Ok scores
  else Ok scores.
End Analyzer.

Section Main.
Context {T : Type} `{Num T}.

(** The weighted combination of lines 70-77, for one category. *)
Definition combine (popularity_scores genre_scores audio_scores diversity_scores : dict T)
           (category : string) : T :=
  add (add (add (mul (dict_get popularity_scores category (of_Z 0)) (of_Q 0.3))
                (mul (dict_get genre_scores category (of_Z 0)) (of_Q 0.3)))
           (mul (dict_get audio_scores category (of_Z 0)) (of_Q 0.25)))
      (mul (dict_get diversity_scores category (of_Z 0)) (of_Q 0.15)).

(** [scores] after the loop of lines 71-77. *)
Definition combined_scores (artists : list Artist.t) (tracks : list Track.t)
           (audio_features : list (AudioFeatures.t T)) : result (dict T) :=
  let scores : dict T := [
    ("performative", of_Q 0.0);
    ("avant_garde", of_Q 0.0);
    ("pandering", of_Q 0.0);
    ("sophisticated", of_Q 0.0);
    ("explorer", of_Q 0.0);
    ("trendsetter", of_Q 0.0)
  ] in
  popularity_scores <- _analyze_popularity artists tracks ;;
  genre_scores <- _analyze_genres artists ;;
  audio_scores <- _analyze_audio_features audio_features ;;
  diversity_scores <- _analyze_diversity artists tracks ;;
  for_each (keys scores)
           (fun scores category =>
              Ok (dict_set scores category
                    (combine popularity_scores genre_scores audio_scores
                             diversity_scores category)))
           scores.

(** [{k: (v / total) * 100 for k, v in scores.items()}] *)
Fixpoint percentages (total : T) (items : dict T) : result (dict T) :=
  match items with
  | [] => Ok []
  | (k, v) :: items' =>
      q <- truediv v total ;;
      rest <- percentages total items' ;;
      Ok ((k, mul q (of_Z 100)) :: rest)
  end.

(** [normalized_scores] (lines 80-81): the unrounded percentages. *)
Definition normalized_scores (artists : list Artist.t) (tracks : list Track.t)
           (audio_features : list (AudioFeatures.t T)) : result (dict T) :=
  scores <- combined_scores artists tracks audio_features ;;
  let total := or_one (sum (values scores)) in
  percentages total scores.

(** The body of the loop of lines 87-94. *)
Definition append_significant (personality_types : dict PersonalityType.t)
           (results : list (PersonalityScore.t T)) (item : string * T)
  : result (list (PersonalityScore.t T)) :=
  let (category, percentage) := item in
  if ltb (of_Z 5) percentage then
    d <- dict_lookup personality_types category ;;
    t <- dict_lookup personality_types category ;;
    Ok (results ++ [PersonalityScore.mk category (round1 percentage)
                      (PersonalityType.description d)
                      (PersonalityType.traits t)])
  else Ok results.

(** [results] before the sort (lines 84-94). *)
Definition significant (normalized : dict T) : result (list (PersonalityScore.t T)) :=
  let personality_types := _get_personality_descriptions in
  for_each normalized (append_significant personality_types) [].

(** [results.sort(key=lambda x: x.percentage, reverse=True)]: a stable sort
    into descending order of the key; entries with equal keys keep their
    order. *)
Fixpoint insert_desc (x : PersonalityScore.t T) (l : list (PersonalityScore.t T))
  : list (PersonalityScore.t T) :=
  match l with
  | [] => [x]
  | y :: l' =>
      if ltb (PersonalityScore.percentage x) (PersonalityScore.percentage y)
      then y :: insert_desc x l'
      else x :: l
  end.

Definition sort_by_percentage (l : list (PersonalityScore.t T))
  : list (PersonalityScore.t T) :=
  fold_right insert_desc [] l.

Definition analyze_personality (artists : list Artist.t) (tracks : list Track.t)
           (audio_features : list (AudioFeatures.t T))
  : result (list (PersonalityScore.t T)) :=
  normalized <- normalized_scores artists tracks audio_features ;;
  results <- significant normalized ;;
  Ok (sort_by_percentage results).
End Main.

(** ** The two readings of the numbers *)

(** Exact rational arithmetic, results kept in lowest terms. *)
Module Exact.
Definition Qlt_bool (x y : Q) : bool := negb (Qle_bool y x).

#[global] Instance Q_num : Num Q := {|
  of_Q := Qred;
  exact := fun x => Some x;
  add := fun x y => Qred (x + y);
  mul := fun x y => Qred (x * y);
  div := fun x y => Qred (x / y);
  ltb := Qlt_bool;
  leb := Qle_bool;
  truthy := fun x => negb (Qeq_bool x 0);
  truthy_one := eq_refl
|}.
End Exact.

(** IEEE 754 binary64, round to nearest, ties to even. *)
Module Binary64.
Definition Z2SF (z : Z) : spec_float :=
  match z with
  | Z0 => S754_zero false
  | Zpos p => S754_finite false p 0
  | Zneg p => S754_finite true p 0
  end.

(** The binary64 nearest to a rational: what CPython computes for a decimal
    literal and for the true division of two [int]s. *)
Definition nearest (q : Q) : float :=
  SF2Prim (SFdiv prec emax (Z2SF (Qnum q)) (Z2SF (Zpos (Qden q)))).

Definition rational (x : float) : option Q :=
  match Prim2SF x with
  | S754_zero _ => Some 0%Q
  | S754_finite s m e =>
      let v := (inject_Z (Zpos m) * Qpower 2 e)%Q in
      Some (if s then Qopp v else v)
  | S754_infinity _ => None
  | S754_nan => None
  end.

Definition nonzero (x : float) : bool := negb (PrimFloat.eqb x (nearest 0)).

(** [sum(xs)] as CPython 3.12 computes it on floats: the left-to-right sum
    and, beside it, the sum of the rounding errors, added at the end. *)
Definition compensated_sum (xs : list float) : float :=
  let step (state : float * float) (x : float) : float * float :=
    let (total, c) := state in
    let t := PrimFloat.add total x in
    if PrimFloat.leb (PrimFloat.abs x) (PrimFloat.abs total)
    then (t, PrimFloat.add c (PrimFloat.add (PrimFloat.sub total t) x))
    else (t, PrimFloat.add c (PrimFloat.add (PrimFloat.sub x t) total)) in
  let (total, c) := fold_left step xs (nearest 0, nearest 0) in
  if nonzero c then PrimFloat.add total c else total.

#[global] Instance float_num : Num float := {|
  of_Q := nearest;
  exact := rational;
  add := PrimFloat.add;
  mul := PrimFloat.mul;
  div := PrimFloat.div;
  ltb := PrimFloat.ltb;
  leb := PrimFloat.leb;
  truthy := nonzero;
  truthy_one := eq_refl
|}.
End Binary64.

(** * Vocabulary of the properties *)

(** ** What the specification speaks of *)

(** The weights a keyword's dictionary holds for one category. *)
Definition weights_for (category : string) (weights : dict Q) : list Q :=
  flat_map (fun entry => if String.eqb category (fst entry) then [snd entry] else [])
           weights.

(** Every weight that one (lowercased) genre tag contributes to a category:
    the full dictionary of every matching keyword, in table order. *)
Definition tag_contributions (category genre_lower : string) : list Q :=
  flat_map (fun item =>
              if genre_matches (fst item) genre_lower
              then weights_for category (snd item) else [])
           genre_weights.

(** All the weights the tags contribute to a category, tag by tag. *)
Definition contributions (category : string) (tags : list string) : list Q :=
  flat_map (fun genre => tag_contributions category (lower genre)) tags.

(** The accumulator of a category: the contributions added from the left,
    starting from 0.0, then divided by the number of tags. *)
Definition genre_score {T} `{Num T} (category : string) (tags : list string) : T :=
  div (fold_left add (map of_Q (contributions category tags)) (of_Q 0.0))
      (of_Z (Z.of_nat (List.length tags))).

(** [sub] occurs in [s] as a substring. *)
Definition Substring (sub s : string) : Prop :=
  exists pre post, s = (pre ++ sub ++ post)%string.

(** The match of the specification: the keyword occurs in the tag, or one of
    the keyword's whitespace-delimited words does. *)
Definition Matches (genre_key genre_lower : string) : Prop :=
  Substring genre_key genre_lower \/
  exists word, In word (split genre_key) /\ Substring word genre_lower.

(** The popularity values that count: the nonzero ones, artists first. *)
Definition nonzero_popularities (artists : list Artist.t) (tracks : list Track.t)
  : list Z :=
  map Artist.popularity
      (filter (fun a => negb (Artist.popularity a =? 0)%Z) artists) ++
  map Track.popularity
      (filter (fun t => negb (Track.popularity t =? 0)%Z) tracks).

(** The exact mean of a list of integers. *)
Definition exact_mean (data : list Z) : Q :=
  inject_Z (fold_left Z.add data 0%Z) / inject_Z (Z.of_nat (List.length data)).

(** The exact mean of a list of rationals. *)
Definition Qmean (data : list Q) : Q :=
  fold_left Qplus data 0%Q / inject_Z (Z.of_nat (List.length data)).

(** A rule of the specification: the weight when the condition holds, and
    the 0 that [scores.get(category, 0)] reads otherwise. *)
Definition rule {T} `{Num T} (condition : bool) (weight : Q) : T :=
  if condition then of_Q weight else of_Z 0.

(** The diversity ratio of the specification: unique tags over all tags. *)
Definition diversity_ratio (artists : list Artist.t) : Q :=
  inject_Z (Z.of_nat (List.length (nodup string_dec (all_genres artists))))
  / inject_Z (Z.of_nat (List.length (all_genres artists))).

(** The entry of the static table for a category. *)
Definition personality_type (category : string) : PersonalityType.t :=
  dict_get _get_personality_descriptions category (PersonalityType.mk "" []).

(** What [append_significant] builds for a kept item. *)
Definition entry_of {T} `{Num T} (item : string * T) : PersonalityScore.t T :=
  PersonalityScore.mk (fst item) (round1 (snd item))
    (PersonalityType.description (personality_type (fst item)))
    (PersonalityType.traits (personality_type (fst item))).

(** The test of line 88, [percentage > 5]. *)
Definition is_significant {T} `{Num T} (item : string * T) : bool :=
  ltb (of_Z 5) (snd item).

(** The sum of a list of rationals, as the specification means it. *)
Definition Qsum (l : list Q) : Q := fold_right Qplus 0%Q l.

(** The percentages of exact arithmetic: each total over the divisor, times
    100. *)
Definition exact_normalized (total : Q) (scores : dict Q) : dict Q :=
  map (fun item => (fst item, @mul Q _ (div (snd item) total) (of_Z 100))) scores.

(** The order the claim states: an earlier entry's unrounded percentage is
    at least a later entry's. *)
Definition descending_unrounded {T} `{Num T} (normalized : dict T)
           (results : list (PersonalityScore.t T)) : Prop :=
  forall l1 e1 l2 e2 l3, results = l1 ++ e1 :: l2 ++ e2 :: l3 ->
  forall p1 p2,
    dict_lookup normalized (PersonalityScore.category e1) = Ok p1 ->
    dict_lookup normalized (PersonalityScore.category e2) = Ok p2 ->
    leb p2 p1 = true.

Fixpoint index_of (c : string) (l : list string) : nat :=
  match l with
  | [] => 0
  | c' :: l' => if String.eqb c c' then 0 else S (index_of c l')
  end.

(** The place of a category in the table order. *)
Definition category_index (c : string) : nat := index_of c categories.

(** The order of the returned list: a strictly greater rounded percentage
    first, and, for equal rounded percentages, the table order. *)
Definition rounded_order (x y : PersonalityScore.t Q) : Prop :=
  (PersonalityScore.percentage y < PersonalityScore.percentage x)%Q \/
  ((PersonalityScore.percentage y == PersonalityScore.percentage x)%Q /\
   (category_index (PersonalityScore.category x)
    < category_index (PersonalityScore.category y))%nat).

Definition table_order (x y : PersonalityScore.t Q) : Prop :=
  (category_index (PersonalityScore.category x)
   < category_index (PersonalityScore.category y))%nat.

(** ** Invariants of the loops *)

Definition weights_in_categories (weights : dict Q) : Prop :=
  Forall (fun entry => In (fst entry) categories) weights.

(** What a loop body does to the accumulators: it keeps the keys and adds the
    weights [g x c], in order, to the accumulator of each category [c]. *)
Definition accumulates {T} `{Num T} {A} (P : A -> Prop) (g : A -> string -> list Q)
           (body : dict T -> A -> result (dict T)) : Prop :=
  forall d x, P x -> keys d = categories ->
    exists d', body d x = Ok d' /\ keys d' = categories /\
      forall c v, dict_lookup d c = Ok v ->
        dict_lookup d' c = Ok (fold_left add (map of_Q (g x c)) v).

Definition nonneg (d : dict Q) : Prop := Forall (fun item => (0 <= snd item)%Q) d.

(** ** Inputs used as examples *)

Definition artist (genres : list string) (popularity : Z) : Artist.t :=
  Artist.mk "artist" "Artist" genres popularity.

Definition track (popularity : Z) : Track.t :=
  Track.mk "track" "Track" [] popularity.

Definition pandering_only {T} `{Num T} : list (PersonalityScore.t T) :=
  [PersonalityScore.mk "pandering" (of_Q 100)
     "You enjoy feel-good, accessible music that hits the right spots"
     ["Prefers catchy melodies"; "Likes danceable beats";
      "Values emotional appeal"; "Enjoys familiar structures"]].

(** The vector of the specification's example; the fields the claim leaves
    open are arguments. *)
Definition example_features {T} `{Num T} (id : string)
           (tempo acousticness liveness speechiness : T) : AudioFeatures.t T :=
  AudioFeatures.mk id (of_Q 0.8) (of_Q 0.8) (of_Q 0.95) tempo acousticness
                   (of_Q 0.6) liveness speechiness.

(** Two very danceable, instrumental tracks with the energies 0.6 and 0.8. *)
Definition loud_pair {T} `{Num T} : list (AudioFeatures.t T) :=
  [AudioFeatures.mk "first" (of_Q 0.9) (of_Q 0.6) (of_Q 0.5) (of_Q 120)
                    (of_Q 0.1) (of_Q 0.6) (of_Q 0.1) (of_Q 0.1);
   AudioFeatures.mk "second" (of_Q 0.9) (of_Q 0.8) (of_Q 0.5) (of_Q 120)
                    (of_Q 0.1) (of_Q 0.6) (of_Q 0.1) (of_Q 0.1)].

Definition classical_scores {T} `{Num T} : dict T :=
  [("performative", of_Q 0); ("avant_garde", of_Q 0.3); ("pandering", of_Q 0);
   ("sophisticated", of_Q 0.9); ("explorer", of_Q 0); ("trendsetter", of_Q 0)].

(** An input with a nonzero share that stays below the threshold: one artist
    tagged jazz with popularity 80 leaves trendsetter at about 4.85 percent. *)
Definition jazz_fan : list Artist.t := [artist ["jazz"] 80].

(** An input with a share between 5 and 5.05 percent: one artist tagged jazz
    and opera, and one quiet, acoustic, instrumental track; performative
    gets 0.06 of a total of 1.19. *)
Definition quiet_artists : list Artist.t := [artist ["jazz"; "opera"] 0].

Definition quiet_features {T} `{Num T} : list (AudioFeatures.t T) :=
  [AudioFeatures.mk "track" (of_Q 0.5) (of_Q 0.3) (of_Q 0.5) (of_Q 120)
                    (of_Q 0.7) (of_Q 0.6) (of_Q 0.1) (of_Q 0.1)].

(** An input on which two shares round to the same decimal: one artist with
    five tags, and one loud, danceable, instrumental track. *)
Definition close_artists : list Artist.t :=
  [artist ["rock"; "pop"; "pop"; "jazz"; "noise"] 0].

Definition close_features {T} `{Num T} : list (AudioFeatures.t T) :=
  [AudioFeatures.mk "track" (of_Q 0.8) (of_Q 0.8) (of_Q 0.5) (of_Q 120)
                    (of_Q 0.5) (of_Q 0.6) (of_Q 0.1) (of_Q 0.1)].

(** An input whose rounded percentages sum to more than 100: one artist
    tagged rock and one instrumental track of low valence. *)
Definition rock_artists : list Artist.t := [artist ["rock"] 0].

Definition rock_features {T} `{Num T} : list (AudioFeatures.t T) :=
  [AudioFeatures.mk "track" (of_Q 0.5) (of_Q 0.5) (of_Q 0.2) (of_Q 120)
                    (of_Q 0.5) (of_Q 0.6) (of_Q 0.1) (of_Q 0.1)].

(** ** Tactics *)

(** Closes [incl (keys d) categories] for an explicit dictionary [d]. *)
Ltac keys_in_categories :=
  unfold keys, categories; intros ? ?; simpl in *; tauto.

(** Splits on every condition of the goal. *)
Ltac split_ifs :=
  repeat match goal with |- context [if ?b then _ else _] => destruct b end.

(** Closes [nonneg d] for an explicit dictionary of constants. *)
Ltac nonneg_constants :=
  unfold nonneg; repeat constructor; vm_compute; discriminate.

(** * The aggregations around the analyzer *)

(** ** app/utils.py *)

(** [extract_genres_from_artists]: an artist is a dictionary whose ["genres"]
    entry, when there is one, lists the artist's genre tags. *)
Definition extract_genres_from_artists (artists_data : list (dict (list string)))
  : dict Z :=
  fold_left
    (fun genre_count artist =>
       fold_left
         (fun genre_count genre =>
            dict_set genre_count genre (dict_get genre_count genre 0 + 1)%Z)
         (dict_get artist "genres" [])
         genre_count)
    artists_data [].

Definition feature_keys : list string :=
  ["danceability"; "energy"; "valence"; "tempo"; "acousticness";
   "instrumentalness"; "liveness"; "speechiness"].

Section Averages.
Context {T : Type} `{Num T}.

(** [[f.get(key, 0) for f in features_list if f.get(key) is not None]]: a
    feature dictionary maps a key to a number or to [None]. *)
Definition present_values (key : string) (features_list : list (dict (option T)))
  : list T :=
  flat_map (fun f => match dict_get f key None with
                     | Some v => [v]
                     | None => []
                     end)
           features_list.

Definition calculate_average_features (features_list : list (dict (option T)))
  : result (dict T) :=
  if is_empty features_list then Ok []
  else
    for_each feature_keys
             (fun averages key =>
                let values := present_values key features_list in
                if negb (is_empty values) then
                  average <- truediv_int (sum values)
                                         (Z.of_nat (List.length values)) ;;
                  Ok (dict_set averages key average)
                else Ok (dict_set averages key (of_Q 0.0)))
             [].

(** ** app/main.py, [get_user_stats] *)

(** [features_data] (lines 192-204): one dictionary per feature vector. *)
Definition features_data (f : AudioFeatures.t T) : dict (option T) :=
  [("danceability", Some (AudioFeatures.danceability f));
   ("energy", Some (AudioFeatures.energy f));
   ("valence", Some (AudioFeatures.valence f));
   ("tempo", Some (AudioFeatures.tempo f));
   ("acousticness", Some (AudioFeatures.acousticness f));
   ("instrumentalness", Some (AudioFeatures.instrumentalness f));
   ("liveness", Some (AudioFeatures.liveness f));
   ("speechiness", Some (AudioFeatures.speechiness f))].

(** [mood_score] (line 209) *)
Definition mood_score (average_features : dict T) : result T :=
  truediv_int (add (dict_get average_features "valence" (of_Z 0))
                   (dict_get average_features "energy" (of_Z 0)))
              2.
End Averages.

(** [sorted(items, key=lambda x: x[1], reverse=True)]: a stable sort into
    descending order of the count. *)
Fixpoint insert_by_count (x : string * Z) (l : list (string * Z))
  : list (string * Z) :=
  match l with
  | [] => [x]
  | y :: l' =>
      if (snd x <? snd y)%Z then y :: insert_by_count x l' else x :: l
  end.

Definition sorted_by_count (items : list (string * Z)) : list (string * Z) :=
  fold_right insert_by_count [] items.

(** [top_genres] (lines 174-177): the ten most frequent genres of the top
    artists, as (genre, count) pairs. *)
Definition top_genres (top_artists : list Artist.t) : list (string * Z) :=
  let artists_data :=
    map (fun artist => [("genres", Artist.genres artist)]) top_artists in
  let genre_counts := extract_genres_from_artists artists_data in
  firstn 10 (sorted_by_count genre_counts).

(** ** app/spotify_client.py, [get_audio_features] *)

(** [range(0, stop, step)] *)
Definition range_step (stop step : nat) : list nat :=
  map (fun k => k * step)%nat (seq 0 ((stop + step - 1) / step)).

(** The slices [track_ids[i:i+100]] the loop of lines 143-144 walks through. *)
Definition batches (track_ids : list string) : list (list string) :=
  map (fun i => firstn 100 (skipn i track_ids))
      (range_step (List.length track_ids) 100).

Section AudioFeaturesRequest.
(** The answer of the catalog to one audio-features request, given the
    [ids] parameter (lines 145-148): the list [data.get("audio_features", [])],
    an entry being a feature record or null; or the exception the request
    raised. *)
Context {F : Type} (request_audio_features : string -> result (list (option F))).

Definition get_audio_features (track_ids : list string) : result (list F) :=
  if is_empty track_ids then Ok []
  else
    for_each (range_step (List.length track_ids) 100)
             (fun features i =>
                let batch_ids := firstn 100 (skipn i track_ids) in
                data <- request_audio_features (String.concat "," batch_ids) ;;
                Ok (features ++
                    flat_map (fun feature_data =>
                                match feature_data with
                                | Some f => [f]
                                | None => []
                                end) data))
             [].
End AudioFeaturesRequest.

(** ** Vocabulary of the further properties *)

(** The genre tags [extract_genres_from_artists] walks through, in order. *)
Definition genre_tags (artists_data : list (dict (list string))) : list string :=
  flat_map (fun artist => dict_get artist "genres" []) artists_data.

(** The dictionary [get_user_stats] builds for an artist (line 174). *)
Definition genres_only (artist : Artist.t) : dict (list string) :=
  [("genres", Artist.genres artist)].

(** The average the statistics report for a key: the left-to-right sum of the
    values that are present over their number, or 0.0 when none is. *)
Definition average_value {T} `{Num T} (key : string)
           (features_list : list (dict (option T))) : T :=
  match present_values key features_list with
  | [] => of_Q 0.0
  | _ :: _ =>
      div (sum (present_values key features_list))
          (of_Z (Z.of_nat (List.length (present_values key features_list))))
  end.

(** The non-null entries of an answer. *)
Definition non_null {F} (data : list (option F)) : list F :=
  flat_map (fun feature_data => match feature_data with
                                | Some f => [f]
                                | None => []
                                end) data.

(** The order of the top genres: the greater count first. *)
Definition count_order (x y : string * Z) : Prop := (snd y <= snd x)%Z.

(** Three feature vectors that differ only in their energies 0.1, 0.2, 0.3. *)
Definition three_energies {T} `{Num T} : list (AudioFeatures.t T) :=
  map (fun energy =>
         AudioFeatures.mk "track" (of_Q 0.5) (of_Q energy) (of_Q 0.5) (of_Q 120)
                          (of_Q 0.5) (of_Q 0.5) (of_Q 0.1) (of_Q 0.1))
      [0.1; 0.2; 0.3]%Q.

(** Valence and energy as the catalog documents them: between 0 and 1. *)
Definition unit_range (f : AudioFeatures.t Q) : Prop :=
  (0 <= AudioFeatures.valence f)%Q /\ (AudioFeatures.valence f <= 1)%Q /\
  (0 <= AudioFeatures.energy f)%Q /\ (AudioFeatures.energy f <= 1)%Q.

(** ** The genre sub-scorer, for any lowering of the tags

    [lower] is [str.lower] on ASCII text.  Outside ASCII, [str.lower] follows
    the Unicode tables (a tag being then the sequence of the 8-bit
    characters of its UTF-8 form, on which [in] finds the same substrings);
    here the lowering is a parameter, so that what is proved of the
    sub-scorer holds whatever [genre.lower()] returns. *)

Section Lowering.
Context {T : Type} `{Num T} (str_lower : string -> string).

(** The body of the loop over [all_genres] (lines 134-139). *)
Definition score_genre_with (scores : dict T) (genre : string) : result (dict T) :=
  let genre_lower := str_lower genre in
  for_each genre_weights (score_genre_key genre_lower) scores.

Definition _analyze_genres_with (artists : list Artist.t) : result (dict T) :=
  let all_genres := all_genres artists in
  if is_empty all_genres then Ok []
  else
    let scores : dict T := map (fun category => (category, of_Q 0.0)) categories in
    scores <- for_each all_genres score_genre_with scores ;;
    if negb (is_empty all_genres)
    then normalize_by (Z.of_nat (List.length all_genres)) scores
    else Ok scores.
End Lowering.

(** ** Inputs of the further properties *)

(** A popularity of the data model: an integer from 0 to 100. *)
Definition popularity_range (popularity : Z) : Prop :=
  (0 <= popularity <= 100)%Z.

(** Four artists with one tag each, listed in two orders. *)
Definition classical_third : list Artist.t :=
  [artist ["opera"] 0; artist ["opera"] 0; artist ["classical"] 0;
   artist ["opera"] 0].

Definition classical_last : list Artist.t :=
  [artist ["opera"] 0; artist ["opera"] 0; artist ["opera"] 0;
   artist ["classical"] 0].

(** The categories and percentages of a result, in order. *)
Definition shares {T} (results : list (PersonalityScore.t T)) : list (string * T) :=
  map (fun entry => (PersonalityScore.category entry,
                     PersonalityScore.percentage entry)) results.

(** * Properties *)

(** ** Loops and dictionaries *)

Lemma dict_lookup_set {V} (d : dict V) (k c : string) (v : V) :
  dict_lookup (dict_set d k v) c =
  if String.eqb c k then Ok v else dict_lookup d c.
Proof.
  induction d as [|[k' v'] d IH]; simpl.
  - destruct (String.eqb c k); reflexivity.
  - destruct (String.eqb k k') eqn:Ekk; simpl.
    + apply String.eqb_eq in Ekk; subst k'.
      destruct (String.eqb c k); reflexivity.
    + destruct (String.eqb c k') eqn:Eck.
      * apply String.eqb_eq in Eck; subst k'.
        rewrite String.eqb_sym in Ekk; rewrite Ekk; reflexivity.
      * exact IH.
Qed.

Lemma keys_dict_set {V} (d : dict V) (k : string) (v : V) :
  In k (keys d) -> keys (dict_set d k v) = keys d.
Proof.
  induction d as [|[k' v'] d IH]; simpl; [tauto|].
  intros [E | Hin].
  - subst k'; rewrite String.eqb_refl; reflexivity.
  - destruct (String.eqb k k'); simpl; [reflexivity | now rewrite IH].
Qed.

Lemma dict_lookup_In {V} (d : dict V) (k : string) :
  In k (keys d) -> exists v, dict_lookup d k = Ok v.
Proof.
  induction d as [|[k' v'] d IH]; simpl; [tauto|].
  intros [E | Hin].
  - subst k'; rewrite String.eqb_refl; eauto.
  - destruct (String.eqb k k'); eauto.
Qed.

Lemma dict_lookup_keys {V} (d : dict V) (k : string) (v : V) :
  dict_lookup d k = Ok v -> In k (keys d).
Proof.
  induction d as [|[k' v'] d IH]; simpl; [discriminate|].
  destruct (String.eqb k k') eqn:E; [apply String.eqb_eq in E; auto | auto].
Qed.

Lemma dict_lookup_In_item {V} (d : dict V) (k : string) (v : V) :
  dict_lookup d k = Ok v -> In (k, v) d.
Proof.
  induction d as [|[k' v'] d IH]; simpl; [discriminate|].
  destruct (String.eqb k k') eqn:E.
  - apply String.eqb_eq in E; subst k'; intros [= ->]; auto.
  - auto.
Qed.

Lemma In_item_lookup {V} (d : dict V) (k : string) (v : V) :
  NoDup (keys d) -> In (k, v) d -> dict_lookup d k = Ok v.
Proof.
  induction d as [|[k' v'] d IH]; simpl; [tauto|].
  intros Hnd [E | Hin]; inversion Hnd as [|? ? Hnotin Hnd']; subst.
  - injection E as -> ->; rewrite String.eqb_refl; reflexivity.
  - destruct (String.eqb k k') eqn:E.
    + apply String.eqb_eq in E; subst k'.
      exfalso; apply Hnotin; unfold keys; apply (in_map fst) in Hin; exact Hin.
    + auto.
Qed.

Lemma six_keys {V} (d : dict V) :
  keys d = categories ->
  exists v1 v2 v3 v4 v5 v6,
    d = [("performative", v1); ("avant_garde", v2); ("pandering", v3);
         ("sophisticated", v4); ("explorer", v5); ("trendsetter", v6)].
Proof.
  unfold keys, categories; intros Hk.
  do 6 (destruct d as [|[? ?] d]; [discriminate|]; simpl in Hk;
        injection Hk as -> Hk).
  destruct d; [|discriminate].
  do 6 eexists; reflexivity.
Qed.

Lemma NoDup_categories : NoDup categories.
Proof. unfold categories; repeat constructor; simpl; intuition discriminate. Qed.

(** ** The genre sub-scorer as a sum over matches *)

Lemma genre_weights_in_categories :
  Forall (fun item => weights_in_categories (snd item)) genre_weights.
Proof.
  unfold genre_weights, weights_in_categories, categories.
  repeat (constructor; [repeat (constructor; [simpl; tauto|])|]); constructor.
Qed.

Section Accumulate.

Context {T : Type} `{Num T}.

Lemma for_each_accumulates {A} (P : A -> Prop) g body :
  accumulates P g body ->
  forall xs : list A, Forall P xs ->
  forall d, keys d = categories ->
    exists d', for_each xs body d = Ok d' /\ keys d' = categories /\
      forall c v, dict_lookup d c = Ok v ->
        dict_lookup d' c =
        Ok (fold_left add (map of_Q (flat_map (fun x => g x c) xs)) v).
Proof.
  intros Hacc xs HP; induction HP as [|x xs Px HP IH]; intros d Hk; simpl.
  - exists d; auto.
  - destruct (Hacc d x Px Hk) as (d1 & E1 & K1 & L1).
    destruct (IH d1 K1) as (d2 & E2 & K2 & L2).
    exists d2; rewrite E1; simpl; repeat split; auto.
    intros c v Hv. rewrite map_app, fold_left_app. auto.
Qed.

Lemma add_weight_accumulates :
  accumulates (fun entry => In (fst entry) categories)
              (fun entry c => if String.eqb c (fst entry) then [snd entry] else [])
              add_weight.
Proof.
  intros d [c' w] Hin Hk; cbn [fst] in Hin; unfold add_weight.
  rewrite <- Hk in Hin.
  destruct (dict_lookup_In d c' Hin) as (old & Hold); rewrite Hold; simpl.
  eexists; split; [reflexivity|]; split.
  - rewrite keys_dict_set; auto.
  - intros c v Hv; rewrite dict_lookup_set; simpl.
    destruct (String.eqb c c') eqn:E; simpl; [|exact Hv].
    apply String.eqb_eq in E; subst c'; congruence.
Qed.

Lemma score_genre_key_accumulates (genre_lower : string) :
  accumulates (fun item => weights_in_categories (snd item))
              (fun item c =>
                 if genre_matches (fst item) genre_lower
                 then weights_for c (snd item) else [])
              (score_genre_key genre_lower).
Proof.
  intros d [genre_key weights] HP Hk; cbn [fst snd] in *; unfold score_genre_key.
  destruct (genre_matches genre_key genre_lower).
  - exact (for_each_accumulates _ _ _ add_weight_accumulates weights HP d Hk).
  - exists d; auto.
Qed.

Lemma score_genre_accumulates :
  accumulates (fun _ => True)
              (fun genre c => tag_contributions c (lower genre))
              score_genre.
Proof.
  intros d genre _ Hk; unfold score_genre.
  exact (for_each_accumulates _ _ _ (score_genre_key_accumulates (lower genre))
           genre_weights genre_weights_in_categories d Hk).
Qed.

(** The accumulators of [_analyze_genres]: for a non-empty tag list, one entry
    per category, holding the left-to-right sum of the contributions divided
    by the number of tags. *)
Lemma _analyze_genres_sum (artists : list Artist.t) :
  all_genres artists <> [] ->
  exists scores,
    _analyze_genres artists = Ok scores /\ keys scores = categories /\
    forall c, In c categories ->
      dict_lookup scores c =
      Ok (div (fold_left add (map of_Q (contributions c (all_genres artists)))
                         (of_Q 0.0))
              (of_Z (Z.of_nat (List.length (all_genres artists))))).
Proof.
  intros Hne; unfold _analyze_genres.
  assert (Hn : (Z.of_nat (List.length (all_genres artists)) =? 0)%Z = false).
  { apply Z.eqb_neq; destruct (all_genres artists); [congruence | simpl; lia]. }
  revert Hn; generalize (Z.of_nat (List.length (all_genres artists))); intros n Hn.
  destruct (all_genres artists) as [|g tags] eqn:Eg; [congruence|].
  cbn [is_empty negb].
  set (init := map (fun category => (category, of_Q 0.0)) categories).
  assert (Hall : Forall (fun _ : string => True) (g :: tags))
    by (apply Forall_forall; auto).
  destruct (for_each_accumulates _ _ _ score_genre_accumulates (g :: tags) Hall init
              eq_refl) as (d1 & E1 & K1 & L1).
  rewrite E1; cbn [bind].
  destruct (six_keys d1 K1) as (v1 & v2 & v3 & v4 & v5 & v6 & ->).
  unfold normalize_by, truediv_int.
  cbn [keys map fst for_each dict_lookup String.eqb Ascii.eqb Bool.eqb bind].
  repeat (rewrite Hn;
          cbn [bind dict_set String.eqb Ascii.eqb Bool.eqb for_each dict_lookup]).
  eexists; split; [reflexivity|]; split; [reflexivity|].
  intros c Hc.
  assert (Hinit : dict_lookup init c = Ok (of_Q 0.0)).
  { unfold init, categories in *; simpl in Hc.
    destruct Hc as [<-|[<-|[<-|[<-|[<-|[<-|[]]]]]]]; reflexivity. }
  specialize (L1 c _ Hinit); unfold contributions.
  unfold categories in Hc; simpl in Hc.
  destruct Hc as [<-|[<-|[<-|[<-|[<-|[<-|[]]]]]]];
    cbn [dict_lookup String.eqb Ascii.eqb Bool.eqb] in L1 |- *;
    injection L1 as ->; reflexivity.
Qed.

Lemma _analyze_genres_empty (artists : list Artist.t) :
  all_genres artists = [] -> _analyze_genres artists = Ok [].
Proof. intros E; unfold _analyze_genres; rewrite E; reflexivity. Qed.

End Accumulate.

(** ** The pipeline of [analyze_personality], stage by stage *)

Lemma personality_type_lookup (category : string) :
  In category categories ->
  dict_lookup _get_personality_descriptions category = Ok (personality_type category).
Proof.
  unfold categories; simpl.
  intros [<-|[<-|[<-|[<-|[<-|[<-|[]]]]]]]; reflexivity.
Qed.

Section Pipeline.

Context {T : Type} `{Num T}.

Lemma mean_ok (x : T) (data : list T) : exists m, mean (x :: data) = Ok m.
Proof. unfold mean; destruct (exact_sum (x :: data)); eauto. Qed.

(** [_analyze_popularity] as a case distinction on the nonzero values. *)
Lemma _analyze_popularity_cases (artists : list Artist.t) (tracks : list Track.t) :
  _analyze_popularity artists tracks =
  match nonzero_popularities artists tracks with
  | [] => Ok []
  | _ :: _ =>
      let avg : T :=
        of_Q (inject_Z (fold_left Z.add (nonzero_popularities artists tracks) 0%Z)
              / inject_Z (Z.of_nat (List.length (nonzero_popularities artists tracks)))) in
      if leb (of_Z 70) avg then
        Ok [("performative", of_Q 0.8); ("pandering", of_Q 0.6)]
      else if leb avg (of_Z 30) then
        Ok [("avant_garde", of_Q 0.7); ("sophisticated", of_Q 0.5)]
      else Ok [("explorer", of_Q 0.6)]
  end.
Proof.
  unfold _analyze_popularity, nonzero_popularities.
  set (aps := map Artist.popularity _). set (tps := map Track.popularity _).
  destruct aps as [|a aps]; [destruct tps as [|t tps]|]; reflexivity.
Qed.

Lemma _analyze_popularity_keys (artists : list Artist.t) (tracks : list Track.t) :
  exists d, _analyze_popularity artists tracks = Ok d /\ incl (keys d) categories.
Proof.
  rewrite _analyze_popularity_cases.
  destruct (nonzero_popularities artists tracks); cbv zeta;
    split_ifs; eexists; (split; [reflexivity|]);
    keys_in_categories.
Qed.

Lemma _analyze_genres_keys (artists : list Artist.t) :
  exists d, _analyze_genres artists = Ok d /\ incl (keys d) categories.
Proof.
  destruct (all_genres artists) eqn:E.
  - exists []; split; [apply _analyze_genres_empty; exact E | intros k []].
  - destruct (_analyze_genres_sum artists) as (d & Hd & Hk & _); [congruence|].
    exists d; split; [exact Hd | rewrite Hk; apply incl_refl].
Qed.

Lemma _analyze_audio_features_keys (audio_features : list (AudioFeatures.t T)) :
  exists d, _analyze_audio_features audio_features = Ok d /\ incl (keys d) categories.
Proof.
  unfold _analyze_audio_features.
  destruct audio_features as [|f fs]; cbn [is_empty].
  - exists []; split; [reflexivity | intros k []].
  - cbn [map].
    repeat match goal with
           | |- context [mean (?x :: ?l)] =>
               let m := fresh "m" in let E := fresh "E" in
               destruct (mean_ok x l) as (m & E); rewrite E; cbn [bind]
           end.
    split_ifs; eexists; (split; [reflexivity|]);
      keys_in_categories.
Qed.

Lemma _analyze_diversity_keys (artists : list Artist.t) (tracks : list Track.t) :
  exists d, _analyze_diversity artists tracks = Ok d /\ incl (keys d) categories.
Proof.
  unfold _analyze_diversity, int_truediv.
  assert (Hn : ((if (Z.of_nat (List.length (all_genres artists)) =? 0)%Z
                 then 1%Z else Z.of_nat (List.length (all_genres artists))) =? 0)%Z
               = false).
  { destruct (Z.of_nat (List.length (all_genres artists)) =? 0)%Z eqn:E;
      [reflexivity | exact E]. }
  cbv zeta; rewrite Hn; cbn [bind].
  split_ifs; eexists; (split; [reflexivity|]);
    keys_in_categories.
Qed.

(** [combined_scores] never raises: it holds the weighted combination of the
    four sub-scorers' mappings, one entry per category, in table order. *)
Lemma combined_scores_eq (artists : list Artist.t) (tracks : list Track.t)
      (audio_features : list (AudioFeatures.t T)) :
  exists p g a d,
    _analyze_popularity artists tracks = Ok p /\
    _analyze_genres artists = Ok g /\
    _analyze_audio_features audio_features = Ok a /\
    _analyze_diversity artists tracks = Ok d /\
    combined_scores artists tracks audio_features =
    Ok (map (fun category => (category, combine p g a d category)) categories).
Proof.
  destruct (_analyze_popularity_keys artists tracks) as (p & Hp & _).
  destruct (_analyze_genres_keys artists) as (g & Hg & _).
  destruct (_analyze_audio_features_keys audio_features) as (a & Ha & _).
  destruct (_analyze_diversity_keys artists tracks) as (d & Hd & _).
  exists p, g, a, d; repeat (split; [assumption|]).
  unfold combined_scores; rewrite Hp, Hg, Ha, Hd; reflexivity.
Qed.

Lemma truthy_or_one (x : T) : truthy (or_one x) = true.
Proof.
  unfold or_one; destruct (truthy x) eqn:E; [exact E | apply truthy_one].
Qed.

Lemma percentages_eq (total : T) (items : dict T) :
  truthy total = true ->
  percentages total items =
  Ok (map (fun item => (fst item, mul (div (snd item) total) (of_Z 100))) items).
Proof.
  intros Ht; induction items as [|[k v] items IH]; simpl; [reflexivity|].
  unfold truediv; rewrite Ht, IH; reflexivity.
Qed.

(** [normalized_scores] never raises either. *)
Lemma normalized_scores_eq (artists : list Artist.t) (tracks : list Track.t)
      (audio_features : list (AudioFeatures.t T)) :
  exists scores,
    combined_scores artists tracks audio_features = Ok scores /\
    keys scores = categories /\
    normalized_scores artists tracks audio_features =
    Ok (map (fun item =>
               (fst item,
                mul (div (snd item) (or_one (sum (values scores)))) (of_Z 100)))
            scores).
Proof.
  destruct (combined_scores_eq artists tracks audio_features)
    as (p & g & a & d & _ & _ & _ & _ & Hc).
  eexists; split; [exact Hc|]; split; [reflexivity|].
  unfold normalized_scores; rewrite Hc; cbn [bind].
  apply percentages_eq, truthy_or_one.
Qed.

Lemma normalized_scores_keys (artists : list Artist.t) (tracks : list Track.t)
      (audio_features : list (AudioFeatures.t T)) :
  exists normalized,
    normalized_scores artists tracks audio_features = Ok normalized /\
    keys normalized = categories.
Proof.
  destruct (normalized_scores_eq artists tracks audio_features)
    as (scores & _ & Hk & Hn).
  eexists; split; [exact Hn|].
  unfold keys in *; rewrite map_map; exact Hk.
Qed.

Lemma for_each_append_significant (items : dict T) (acc : list (PersonalityScore.t T)) :
  incl (keys items) categories ->
  for_each items (append_significant _get_personality_descriptions) acc =
  Ok (acc ++ map entry_of (filter is_significant items)).
Proof.
  revert acc; induction items as [|[k v] items IH]; intros acc Hk.
  - simpl; rewrite app_nil_r; reflexivity.
  - assert (Hin : In k categories) by (apply Hk; left; reflexivity).
    assert (Hk' : incl (keys items) categories)
      by (intros x Hx; apply Hk; right; exact Hx).
    cbn [for_each filter]; unfold append_significant at 1, is_significant at 1.
    cbn [snd]; destruct (ltb (of_Z 5) v).
    + rewrite (personality_type_lookup k Hin); cbn [bind map].
      rewrite IH by exact Hk'. rewrite <- app_assoc; reflexivity.
    + cbn [bind]; apply IH; exact Hk'.
Qed.

Lemma significant_eq (normalized : dict T) :
  incl (keys normalized) categories ->
  significant normalized = Ok (map entry_of (filter is_significant normalized)).
Proof.
  intros Hk; unfold significant.
  rewrite for_each_append_significant by exact Hk; reflexivity.
Qed.

(** [analyze_personality] never raises: it returns the kept items, rounded,
    in the order the sort gives. *)
Lemma analyze_personality_eq (artists : list Artist.t) (tracks : list Track.t)
      (audio_features : list (AudioFeatures.t T)) :
  exists normalized,
    normalized_scores artists tracks audio_features = Ok normalized /\
    keys normalized = categories /\
    analyze_personality artists tracks audio_features =
    Ok (sort_by_percentage (map entry_of (filter is_significant normalized))).
Proof.
  destruct (normalized_scores_keys artists tracks audio_features)
    as (normalized & Hn & Hk).
  exists normalized; repeat (split; [assumption|]).
  unfold analyze_personality; rewrite Hn; cbn [bind].
  rewrite significant_eq by (rewrite Hk; apply incl_refl); reflexivity.
Qed.

Lemma insert_desc_perm (x : PersonalityScore.t T) (l : list (PersonalityScore.t T)) :
  Permutation (x :: l) (insert_desc x l).
Proof.
  induction l as [|y l IH]; simpl; [reflexivity|].
  destruct (ltb _ _); [|reflexivity].
  rewrite perm_swap; constructor; exact IH.
Qed.

Lemma sort_by_percentage_perm (l : list (PersonalityScore.t T)) :
  Permutation l (sort_by_percentage l).
Proof.
  induction l as [|x l IH]; simpl; [constructor|].
  rewrite <- insert_desc_perm; constructor; exact IH.
Qed.

End Pipeline.

(** ** Exact arithmetic *)

Lemma Qlt_bool_iff (x y : Q) : Exact.Qlt_bool x y = true <-> (x < y)%Q.
Proof.
  unfold Exact.Qlt_bool; rewrite negb_true_iff, <- not_true_iff_false, Qle_bool_iff.
  split; [apply Qnot_le_lt | apply Qlt_not_le].
Qed.

Lemma Qlt_bool_false_iff (x y : Q) : Exact.Qlt_bool x y = false <-> (y <= x)%Q.
Proof.
  unfold Exact.Qlt_bool; rewrite negb_false_iff; apply Qle_bool_iff.
Qed.

Lemma exact_leb_of_Q (a b : Q) : @leb Q _ (of_Q a) (of_Q b) = true <-> (a <= b)%Q.
Proof.
  cbn [leb of_Q Exact.Q_num]; rewrite Qle_bool_iff, !Qred_correct; reflexivity.
Qed.

Lemma exact_truthy_iff (x : Q) : @truthy Q _ x = true <-> ~ (x == 0)%Q.
Proof.
  cbn [truthy Exact.Q_num]; rewrite negb_true_iff, <- not_true_iff_false, Qeq_bool_iff.
  reflexivity.
Qed.

(** C3: the popularity sub-scorer averages only the nonzero artist and track
    popularities; with no nonzero value it returns the empty mapping, and
    otherwise exactly one branch fires: a mean of at least 70 (70 included)
    gives performative 0.8 and pandering 0.6, a mean of at most 30 gives
    avant_garde 0.7 and sophisticated 0.5, a mean strictly between gives
    explorer 0.6.  Proved for the exact mean; at the mean 70 itself (values
    80, 60, 70, and a zero that is left out) the binary64 run takes the first
    branch as well, and at the mean 69.999 the third. *)
Theorem popularity_scorer_branches (artists : list Artist.t) (tracks : list Track.t) :
  let ps := nonzero_popularities artists tracks in
  (ps = [] -> @_analyze_popularity Q _ artists tracks = Ok []) /\
  (ps <> [] -> (70 <= exact_mean ps)%Q ->
   @_analyze_popularity Q _ artists tracks =
   Ok [("performative", of_Q 0.8); ("pandering", of_Q 0.6)]) /\
  (ps <> [] -> (exact_mean ps <= 30)%Q ->
   @_analyze_popularity Q _ artists tracks =
   Ok [("avant_garde", of_Q 0.7); ("sophisticated", of_Q 0.5)]) /\
  (ps <> [] -> (30 < exact_mean ps)%Q -> (exact_mean ps < 70)%Q ->
   @_analyze_popularity Q _ artists tracks = Ok [("explorer", of_Q 0.6)]) /\
  @_analyze_popularity float _ [artist [] 80; artist [] 0; artist [] 60] [track 70] =
  Ok [("performative", of_Q 0.8); ("pandering", of_Q 0.6)] /\
  @_analyze_popularity float _ (repeat (artist [] 70) 999) [track 69] =
  Ok [("explorer", of_Q 0.6)].
Proof.
  intros ps.
  assert (Hcases := @_analyze_popularity_cases Q _ artists tracks).
  fold ps in Hcases; clearbody ps; unfold exact_mean.
  cbv zeta in Hcases; unfold of_Z in Hcases.
  change (inject_Z 70) with 70%Q in Hcases; change (inject_Z 30) with 30%Q in Hcases.
  repeat split; try (vm_compute; reflexivity).
  - intros ->; exact Hcases.
  - intros Hne H70; destruct ps as [|p ps']; [congruence|].
    rewrite Hcases; apply exact_leb_of_Q in H70; rewrite H70; reflexivity.
  - intros Hne H30; destruct ps as [|p ps']; [congruence|].
    rewrite Hcases.
    match goal with |- context [leb (of_Q 70) ?m] =>
      destruct (leb (of_Q 70) m) eqn:E70 end.
    + apply exact_leb_of_Q in E70. exfalso; apply (Qle_not_lt _ _ E70).
      apply Qle_lt_trans with (1 := H30); reflexivity.
    + apply exact_leb_of_Q in H30; rewrite H30; reflexivity.
  - intros Hne Hlo Hhi; destruct ps as [|p ps']; [congruence|].
    rewrite Hcases.
    match goal with |- context [leb (of_Q 70) ?m] =>
      destruct (leb (of_Q 70) m) eqn:E70 end.
    + apply exact_leb_of_Q in E70. exfalso; exact (Qle_not_lt _ _ E70 Hhi).
    + match goal with |- context [leb ?m (of_Q 30)] =>
        destruct (leb m (of_Q 30)) eqn:E30 end; [|reflexivity].
      apply exact_leb_of_Q in E30. exfalso; exact (Qle_not_lt _ _ E30 Hlo).
Qed.

Lemma popularity_scorer_branches_witness :
  @_analyze_popularity Q _ [artist [] 80; artist [] 60] [track 70] =
  Ok [("performative", of_Q 0.8); ("pandering", of_Q 0.6)].
Proof.
  apply (popularity_scorer_branches [artist [] 80; artist [] 60] [track 70]).
  - discriminate.
  - vm_compute; discriminate.
Defined.

(** *** Empty inputs and the diversity sub-scorer *)

(** On the inputs evaluated in binary64 below, the left-to-right sum of the
    six totals and the compensated sum are the same float. *)
Lemma compensated_sum_examples :
  Forall (fun input : list Artist.t * list (AudioFeatures.t float) =>
            exists scores,
              combined_scores (fst input) [] (snd input) = Ok scores /\
              Binary64.compensated_sum (values scores) = sum (values scores))
         [([], []); (quiet_artists, quiet_features); (close_artists, close_features);
          (rock_artists, rock_features)].
Proof.
  repeat (constructor; [eexists; split; vm_compute; reflexivity|]); constructor.
Qed.

(** C1: on three empty collections [analyze_personality] raises nothing, but
    what it returns is not the empty list: the diversity sub-scorer scores
    the ratio 0/1 as low diversity, so the result is the single entry
    pandering at 100 percent (in exact and in binary64 arithmetic alike). *)
Theorem analyze_personality_empty_input :
  @analyze_personality Q _ [] [] [] = Ok pandering_only /\
  @analyze_personality float _ [] [] [] = Ok pandering_only /\
  @analyze_personality Q _ [] [] [] <> Ok [] /\
  @analyze_personality float _ [] [] [] <> Ok [].
Proof.
  repeat split; try (vm_compute; reflexivity); vm_compute; discriminate.
Qed.

(** C2, the zero-genre case: with no genre tag at all the diversity
    sub-scorer does not return the empty mapping; the floored denominator
    makes the ratio 0, which is below 0.3, and the low-diversity branch
    answers pandering 0.6. *)
Theorem diversity_zero_genres :
  @_analyze_diversity Q _ [] [] = Ok [("pandering", of_Q 0.6)] /\
  @_analyze_diversity float _ [] [] = Ok [("pandering", of_Q 0.6)] /\
  @_analyze_diversity Q _ [artist [] 50] [track 50] = Ok [("pandering", of_Q 0.6)] /\
  @_analyze_diversity float _ [artist [] 50] [track 50] = Ok [("pandering", of_Q 0.6)].
Proof. repeat split; vm_compute; reflexivity. Qed.

(** The part of C2 that holds: with at least one tag, a ratio in the closed
    band from 0.3 to 0.7 fires neither branch (exact arithmetic). *)
Lemma diversity_band (artists : list Artist.t) (tracks : list Track.t) :
  all_genres artists <> [] ->
  (0.3 <= diversity_ratio artists)%Q -> (diversity_ratio artists <= 0.7)%Q ->
  @_analyze_diversity Q _ artists tracks = Ok [].
Proof.
  unfold diversity_ratio, _analyze_diversity, int_truediv; intros Hne Hlo Hhi.
  assert (Hn : (Z.of_nat (List.length (all_genres artists)) =? 0)%Z = false).
  { apply Z.eqb_neq; destruct (all_genres artists); [congruence | simpl; lia]. }
  cbv zeta; rewrite !Hn; cbn [bind].
  cbn [ltb of_Q Exact.Q_num].
  replace (Exact.Qlt_bool (Qred 0.7) _) with false.
  2:{ symmetry; apply Qlt_bool_false_iff; rewrite !Qred_correct; exact Hhi. }
  replace (Exact.Qlt_bool _ (Qred 0.3)) with false.
  2:{ symmetry; apply Qlt_bool_false_iff; rewrite !Qred_correct; exact Hlo. }
  reflexivity.
Qed.

(** The ratios exactly 0.3 (3 distinct tags among 10) and exactly 0.7
    (7 among 10) fire neither branch, in binary64 as well. *)
Lemma diversity_boundaries :
  let three := ["a"; "b"; "c"; "a"; "a"; "a"; "a"; "a"; "a"; "a"] in
  let seven := ["a"; "b"; "c"; "d"; "e"; "f"; "g"; "a"; "a"; "a"] in
  @_analyze_diversity Q _ [artist three 0] [] = Ok [] /\
  @_analyze_diversity float _ [artist three 0] [] = Ok [] /\
  @_analyze_diversity Q _ [artist seven 0] [] = Ok [] /\
  @_analyze_diversity float _ [artist seven 0] [] = Ok [].
Proof. repeat split; vm_compute; reflexivity. Qed.

(** *** The audio-feature sub-scorer *)

#[global] Instance Qlt_bool_comp : Proper (Qeq ==> Qeq ==> eq) Exact.Qlt_bool.
Proof. intros x x' Hx y y' Hy; unfold Exact.Qlt_bool; rewrite Hx, Hy; reflexivity. Qed.

Lemma exact_sum_Q (data : list Q) (acc : Q) :
  fold_left (fun acc x =>
               match acc, @exact Q _ x with
               | Some a, Some q => Some (a + q)%Q
               | _, _ => None
               end) data (Some acc) = Some (fold_left Qplus data acc).
Proof.
  revert acc; induction data as [|x data IH]; intros acc; simpl; [reflexivity|].
  apply IH.
Qed.

Lemma exact_mean_Q (x : Q) (data : list Q) :
  @mean Q _ (x :: data) = Ok (Qred (Qmean (x :: data))).
Proof.
  unfold mean, exact_sum; rewrite exact_sum_Q; reflexivity.
Qed.

Lemma exact_ltb_of_Q_l (a m : Q) :
  @ltb Q _ (of_Q a) (Qred m) = Exact.Qlt_bool a m.
Proof. cbn [ltb of_Q Exact.Q_num]; rewrite !Qred_correct; reflexivity. Qed.

Lemma exact_ltb_of_Q_r (a m : Q) :
  @ltb Q _ (Qred m) (of_Q a) = Exact.Qlt_bool m a.
Proof. cbn [ltb of_Q Exact.Q_num]; rewrite !Qred_correct; reflexivity. Qed.

Lemma example_features_scores {T} `{Num T} :
  @mean T _ [of_Q 0.8] = Ok (of_Q 0.8) ->
  @mean T _ [of_Q 0.95] = Ok (of_Q 0.95) ->
  @mean T _ [of_Q 0.6] = Ok (of_Q 0.6) ->
  @ltb T _ (of_Q 0.7) (of_Q 0.8) = true ->
  @ltb T _ (of_Q 0.8) (of_Q 0.4) = false ->
  @ltb T _ (of_Q 0.5) (of_Q 0.6) = true ->
  @ltb T _ (of_Q 0.9) (of_Q 0.95) = true ->
  forall id tempo acousticness liveness speechiness,
    _analyze_audio_features
      [example_features id tempo acousticness liveness speechiness] =
    Ok [("pandering", of_Q 0.7); ("performative", of_Q 0.5);
        ("avant_garde", add (of_Q 0.6) (of_Q 0.4))].
Proof.
  intros M8 M95 M6 L1 L2 L3 L4 id tempo acousticness liveness speechiness.
  unfold _analyze_audio_features, example_features.
  cbn [is_empty map AudioFeatures.energy AudioFeatures.danceability
       AudioFeatures.valence AudioFeatures.acousticness
       AudioFeatures.instrumentalness].
  destruct (mean_ok acousticness []) as (m & E).
  rewrite M8, M95, M6, E; cbn [bind].
  rewrite L1, L2, L3, L4, andb_false_r, orb_true_r; reflexivity.
Qed.

(** C5: the audio-feature sub-scorer returns the empty mapping for an empty
    input; otherwise it takes the means of energy, danceability, valence,
    acousticness and instrumentalness over all vectors, as [statistics.mean]
    returns them, and applies its four rules to them independently, the two
    avant_garde rules adding up: this holds in either arithmetic.  In exact
    arithmetic the means are the rational means; in binary64 they are the
    exact means rounded once, and it is the rounded mean the thresholds are
    compared with (the energies 0.6 and 0.8 have a mean above the float 0.7
    but [statistics.mean] returns 0.7, so the first rule does not fire).
    For one vector with energy 0.8, danceability 0.8, instrumentalness 0.6
    and valence 0.95 the sub-scorer returns pandering 0.7, performative 0.5
    and avant_garde 1.0, in exact and in binary64 arithmetic, whatever the
    other fields are. *)
Theorem audio_scorer_rules :
  (forall T (N : Num T), @_analyze_audio_features T N [] = Ok []) /\
  (forall T (N : Num T) (f : AudioFeatures.t T) (fs : list (AudioFeatures.t T)),
   exists energy danceability valence acousticness instrumentalness scores,
     mean (map AudioFeatures.energy (f :: fs)) = Ok energy /\
     mean (map AudioFeatures.danceability (f :: fs)) = Ok danceability /\
     mean (map AudioFeatures.valence (f :: fs)) = Ok valence /\
     mean (map AudioFeatures.acousticness (f :: fs)) = Ok acousticness /\
     mean (map AudioFeatures.instrumentalness (f :: fs)) = Ok instrumentalness /\
     _analyze_audio_features (f :: fs) = Ok scores /\
     let lively := ltb (of_Q 0.7) energy && ltb (of_Q 0.7) danceability in
     let quiet := ltb (of_Q 0.6) acousticness && ltb energy (of_Q 0.4) in
     let instrumental := ltb (of_Q 0.5) instrumentalness in
     let extreme := ltb valence (of_Q 0.3) || ltb (of_Q 0.9) valence in
     keys scores =
     (if lively then ["pandering"; "performative"] else []) ++
     (if quiet then ["sophisticated"] else []) ++
     (if instrumental || extreme then ["avant_garde"] else []) /\
     dict_get scores "pandering" (of_Z 0) = rule lively 0.7 /\
     dict_get scores "performative" (of_Z 0) = rule lively 0.5 /\
     dict_get scores "sophisticated" (of_Z 0) = rule quiet 0.8 /\
     dict_get scores "avant_garde" (of_Z 0) =
     (if extreme then add (rule instrumental 0.6) (of_Q 0.4)
      else rule instrumental 0.6) /\
     dict_get scores "explorer" (of_Z 0) = of_Z 0 /\
     dict_get scores "trendsetter" (of_Z 0) = of_Z 0) /\
  (forall (x : Q) (data : list Q),
     @mean Q _ (x :: data) = Ok (of_Q (Qmean (x :: data)))) /\
  (exists total half,
     exact_sum (map AudioFeatures.energy (@loud_pair float _)) = Some total /\
     exact (@of_Q float _ 0.7) = Some half /\
     (half < total / 2)%Q /\
     mean (map AudioFeatures.energy (@loud_pair float _)) = Ok (of_Q 0.7) /\
     _analyze_audio_features (@loud_pair float _) = Ok [("avant_garde", of_Q 0.6)]) /\
  (forall id tempo acousticness liveness speechiness,
     @_analyze_audio_features Q _
       [example_features id tempo acousticness liveness speechiness] =
     Ok [("pandering", of_Q 0.7); ("performative", of_Q 0.5);
         ("avant_garde", of_Q 1)]) /\
  (forall id tempo acousticness liveness speechiness,
     @_analyze_audio_features float _
       [example_features id tempo acousticness liveness speechiness] =
     Ok [("pandering", of_Q 0.7); ("performative", of_Q 0.5);
         ("avant_garde", of_Q 1)]).
Proof.
  split; [reflexivity|]; split; [|split; [|split; [|split]]].
  - intros T N f fs.
    destruct (mean_ok (AudioFeatures.energy f) (map AudioFeatures.energy fs))
      as (energy & He).
    destruct (mean_ok (AudioFeatures.danceability f)
                      (map AudioFeatures.danceability fs)) as (danceability & Hd).
    destruct (mean_ok (AudioFeatures.valence f) (map AudioFeatures.valence fs))
      as (valence & Hv).
    destruct (mean_ok (AudioFeatures.acousticness f)
                      (map AudioFeatures.acousticness fs)) as (acousticness & Ha).
    destruct (mean_ok (AudioFeatures.instrumentalness f)
                      (map AudioFeatures.instrumentalness fs))
      as (instrumentalness & Hi).
    exists energy, danceability, valence, acousticness, instrumentalness.
    unfold _analyze_audio_features; cbn [is_empty map].
    rewrite He, Hd, Hv, Ha, Hi; cbn [bind]; eexists.
    do 6 (split; [reflexivity|]); cbv zeta.
    destruct (ltb (of_Q 0.7) energy), (ltb (of_Q 0.7) danceability),
      (ltb (of_Q 0.6) acousticness), (ltb energy (of_Q 0.4)),
      (ltb (of_Q 0.5) instrumentalness), (ltb valence (of_Q 0.3)),
      (ltb (of_Q 0.9) valence);
      repeat split; reflexivity.
  - intros x data; apply exact_mean_Q.
  - do 2 eexists; split; [vm_compute; reflexivity|].
    split; [vm_compute; reflexivity|].
    split; [vm_compute; reflexivity|].
    split; vm_compute; reflexivity.
  - intros; rewrite (@example_features_scores Q _) by (vm_compute; reflexivity).
    vm_compute; reflexivity.
  - intros; rewrite (@example_features_scores float _) by (vm_compute; reflexivity).
    vm_compute; reflexivity.
Qed.

(** *** The genre sub-scorer *)

Lemma prefix_spec (a s : string) :
  prefix a s = true <-> exists post, s = (a ++ post)%string.
Proof.
  revert s; induction a as [|c a IH]; intros s; simpl.
  - split; [intros _; exists s; reflexivity | intros _; destruct s; reflexivity].
  - destruct s as [|c' s]; [split; [discriminate | intros (post & E); discriminate]|].
    simpl; destruct (ascii_dec c c') as [<-|Hne].
    + rewrite IH; split; intros (post & E); exists post; simpl in *; congruence.
    + split; [discriminate | intros (post & E); simpl in E; congruence].
Qed.

Lemma contains_spec (sub s : string) : contains sub s = true <-> Substring sub s.
Proof.
  unfold Substring; induction s as [|c s IH]; cbn [contains].
  - rewrite orb_false_r, prefix_spec; split.
    + intros (post & E); exists "", post; exact E.
    + intros (pre & post & E); destruct pre; [exists post; exact E | discriminate].
  - rewrite orb_true_iff, IH, prefix_spec; split.
    + intros [(post & E) | (pre & post & E)].
      * exists "", post; exact E.
      * exists (String c pre), post; simpl; congruence.
    + intros (pre & post & E); destruct pre as [|c' pre]; simpl in E.
      * left; exists post; exact E.
      * right; exists pre, post; congruence.
Qed.

Lemma genre_matches_spec (genre_key genre_lower : string) :
  genre_matches genre_key genre_lower = true <-> Matches genre_key genre_lower.
Proof.
  unfold genre_matches, Matches.
  rewrite orb_true_iff, contains_spec, existsb_exists.
  split; (intros [Hs | (word & Hin & Hw)]; [left; exact Hs | right; exists word]);
    (split; [exact Hin | apply contains_spec; exact Hw]).
Qed.

(** C4: in the genre sub-scorer a lowercased tag matches a keyword exactly
    when the keyword, or one of its whitespace-delimited words, is a
    substring of the tag; every match adds the keyword's whole weight
    dictionary (the tag k-pop is counted for pop, k-pop and bedroom pop);
    every accumulator is divided by the number of tags, duplicates included;
    no tag at all gives the empty mapping; and the single tag classical gives
    sophisticated 0.9 and avant_garde 0.3 (the other four accumulators 0). *)
Theorem genre_scorer_sum :
  (forall genre_key genre_lower,
     genre_matches genre_key genre_lower = true <-> Matches genre_key genre_lower) /\
  (forall T (N : Num T) (artists : list Artist.t),
     (all_genres artists = [] -> @_analyze_genres T N artists = Ok []) /\
     (all_genres artists <> [] ->
      exists scores,
        @_analyze_genres T N artists = Ok scores /\ keys scores = categories /\
        forall category, In category categories ->
          dict_lookup scores category =
          Ok (genre_score category (all_genres artists)))) /\
  (tag_contributions "trendsetter" (lower "K-Pop") = [0.8; 0.6]%Q /\
   tag_contributions "performative" (lower "K-Pop") = [0.8]%Q /\
   contributions "pandering" ["pop"; "rock"; "pop"] = [0.6; 0.6]%Q) /\
  @_analyze_genres Q _ [artist ["classical"] 0] = Ok classical_scores /\
  @_analyze_genres float _ [artist ["classical"] 0] = Ok classical_scores.
Proof.
  split; [exact genre_matches_spec|]; split; [|repeat split; vm_compute; reflexivity].
  intros T N artists; split.
  - apply _analyze_genres_empty.
  - apply _analyze_genres_sum.
Qed.

Lemma genre_scorer_sum_witness :
  exists scores,
    @_analyze_genres Q _ [artist ["pop"; "rock"; "pop"] 0] = Ok scores /\
    dict_lookup scores "pandering" = Ok (2 # 5).
Proof.
  destruct genre_scorer_sum as (_ & Hsum & _).
  destruct (Hsum Q _ [artist ["pop"; "rock"; "pop"] 0]) as (_ & Hne).
  destruct Hne as (scores & Hs & _ & Hv); [discriminate|].
  exists scores; split; [exact Hs|].
  rewrite (Hv "pandering") by (simpl; tauto).
  vm_compute; reflexivity.
Defined.

(** *** What the returned list holds *)

(** Filtering a dictionary keeps its keys distinct. *)
Lemma keys_filter_NoDup {V} (keep : string * V -> bool) (d : dict V) :
  NoDup (keys d) -> NoDup (keys (filter keep d)).
Proof.
  unfold keys; induction d as [|item d IH]; intros Hnd; [exact Hnd|].
  apply NoDup_cons_iff in Hnd; destruct Hnd as (Hfresh & Hnd).
  cbn [filter]; destruct (keep item); [|exact (IH Hnd)].
  cbn [map]; apply NoDup_cons; [|exact (IH Hnd)].
  intros Hin; apply Hfresh.
  apply in_map_iff in Hin; destruct Hin as (item' & Hk & Hin).
  apply filter_In in Hin; apply in_map_iff; exists item'; tauto.
Qed.

Section Returned.

Context {T : Type} `{Num T}.

(** The returned entries are exactly the significant items of
    [normalized_scores], each rounded after the test. *)
Lemma analyze_personality_entries (artists : list Artist.t) (tracks : list Track.t)
      (audio_features : list (AudioFeatures.t T)) :
  exists normalized results,
    normalized_scores artists tracks audio_features = Ok normalized /\
    keys normalized = categories /\
    analyze_personality artists tracks audio_features = Ok results /\
    results = sort_by_percentage (map entry_of (filter is_significant normalized)) /\
    NoDup (map PersonalityScore.category results) /\
    forall e, In e results <->
      exists p, dict_lookup normalized (PersonalityScore.category e) = Ok p /\
                ltb (of_Z 5) p = true /\
                e = entry_of (PersonalityScore.category e, p).
Proof.
  destruct (analyze_personality_eq artists tracks audio_features)
    as (normalized & Hn & Hk & Ha).
  exists normalized, (sort_by_percentage (map entry_of (filter is_significant normalized))).
  assert (Hnd : NoDup (keys normalized)) by (rewrite Hk; apply NoDup_categories).
  repeat (split; [assumption || reflexivity|]).
  assert (Hperm := sort_by_percentage_perm (map entry_of (filter is_significant normalized))).
  split.
  - eapply Permutation_NoDup; [apply Permutation_map; exact Hperm|].
    rewrite map_map; cbn [entry_of PersonalityScore.category].
    apply keys_filter_NoDup; exact Hnd.
  - intros e; rewrite <- (Permutation_in' (eq_refl e) Hperm), in_map_iff.
    split.
    + intros ([c p] & <- & Hin); apply filter_In in Hin; destruct Hin as (Hin & Hs).
      exists p; cbn [entry_of PersonalityScore.category fst].
      repeat split; [apply In_item_lookup; assumption | exact Hs].
    + intros (p & Hl & Hs & He).
      exists (PersonalityScore.category e, p); split; [symmetry; exact He|].
      apply filter_In; split; [apply dict_lookup_In_item; exact Hl | exact Hs].
Qed.

End Returned.

(** C8: a category whose unrounded percentage is at most 5 never appears in
    the returned list, whatever its raw score: every returned entry comes
    from an unrounded percentage strictly greater than 5 (for any input, in
    either arithmetic). *)
Theorem insignificant_categories_dropped :
  forall T (N : Num T) (artists : list Artist.t) (tracks : list Track.t)
         (audio_features : list (AudioFeatures.t T)),
  exists normalized results,
    normalized_scores artists tracks audio_features = Ok normalized /\
    analyze_personality artists tracks audio_features = Ok results /\
    (forall e, In e results ->
       exists p, dict_lookup normalized (PersonalityScore.category e) = Ok p /\
                 ltb (of_Z 5) p = true /\
                 PersonalityScore.percentage e = round1 p) /\
    (forall category p,
       dict_lookup normalized category = Ok p -> ltb (of_Z 5) p = false ->
       ~ In category (map PersonalityScore.category results)).
Proof.
  intros T N artists tracks audio_features.
  destruct (analyze_personality_entries artists tracks audio_features)
    as (normalized & results & Hn & Hk & Ha & _ & _ & Hin).
  exists normalized, results; repeat (split; [assumption|]); split.
  - intros e He; apply Hin in He; destruct He as (p & Hl & Hs & He).
    exists p; repeat (split; [assumption|]); rewrite He; reflexivity.
  - intros category p Hl Hs Hc; apply in_map_iff in Hc.
    destruct Hc as (e & <- & He); apply Hin in He.
    destruct He as (p' & Hl' & Hs' & _); congruence.
Qed.

Lemma insignificant_categories_dropped_witness :
  exists normalized results,
    @normalized_scores Q _ jazz_fan [] [] = Ok normalized /\
    @analyze_personality Q _ jazz_fan [] [] = Ok results /\
    dict_lookup normalized "trendsetter" = Ok (500 # 103) /\
    ~ In "trendsetter" (map PersonalityScore.category results).
Proof.
  destruct (insignificant_categories_dropped Q _ jazz_fan [] [])
    as (normalized & results & Hn & Ha & _ & Hdrop).
  exists normalized, results; repeat (split; [assumption|]).
  assert (Hl : dict_lookup normalized "trendsetter" = Ok (500 # 103)).
  { vm_compute in Hn; injection Hn as <-; reflexivity. }
  split; [exact Hl|].
  apply (Hdrop "trendsetter" (500 # 103) Hl); vm_compute; reflexivity.
Defined.

(** C9: the keys of every sub-scorer's mapping lie among the six categories;
    every returned entry's category is one of the six, occurs once in the
    returned list, and carries the description and the traits of that
    category's entry in the static table, which has the six categories as its
    keys. *)
Theorem closed_category_set :
  forall T (N : Num T) (artists : list Artist.t) (tracks : list Track.t)
         (audio_features : list (AudioFeatures.t T)),
  (exists p g a d,
     _analyze_popularity artists tracks = Ok p /\ incl (keys p) categories /\
     _analyze_genres artists = Ok g /\ incl (keys g) categories /\
     _analyze_audio_features audio_features = Ok a /\ incl (keys a) categories /\
     _analyze_diversity artists tracks = Ok d /\ incl (keys d) categories) /\
  (exists results,
     analyze_personality artists tracks audio_features = Ok results /\
     NoDup (map PersonalityScore.category results) /\
     forall e, In e results ->
       In (PersonalityScore.category e) categories /\
       dict_lookup _get_personality_descriptions (PersonalityScore.category e) =
       Ok (PersonalityType.mk (PersonalityScore.description e)
                              (PersonalityScore.traits e))) /\
  keys _get_personality_descriptions = categories /\
  List.length categories = 6%nat /\ NoDup categories.
Proof.
  intros T N artists tracks audio_features; split; [|split].
  - destruct (_analyze_popularity_keys artists tracks) as (p & Hp & Kp).
    destruct (_analyze_genres_keys artists) as (g & Hg & Kg).
    destruct (_analyze_audio_features_keys audio_features) as (a & Ha & Ka).
    destruct (_analyze_diversity_keys artists tracks) as (d & Hd & Kd).
    exists p, g, a, d; tauto.
  - destruct (analyze_personality_entries artists tracks audio_features)
      as (normalized & results & Hn & Hk & Ha & _ & Hnd & Hin).
    exists results; repeat (split; [assumption|]).
    intros e He; apply Hin in He; destruct He as (p & Hl & _ & He).
    assert (Hc : In (PersonalityScore.category e) categories)
      by (rewrite <- Hk; eapply dict_lookup_keys; exact Hl).
    split; [exact Hc|].
    assert (Hd : PersonalityScore.description e =
                 PersonalityType.description
                   (personality_type (PersonalityScore.category e)))
      by (rewrite He at 1; reflexivity).
    assert (Ht : PersonalityScore.traits e =
                 PersonalityType.traits
                   (personality_type (PersonalityScore.category e)))
      by (rewrite He at 1; reflexivity).
    rewrite (personality_type_lookup _ Hc), Hd, Ht.
    destruct (personality_type (PersonalityScore.category e)); reflexivity.
  - repeat split; apply NoDup_categories.
Qed.

Lemma closed_category_set_witness :
  exists results,
    @analyze_personality Q _ jazz_fan [] [] = Ok results /\
    map PersonalityScore.category results =
    ["sophisticated"; "explorer"; "performative"; "avant_garde"; "pandering"] /\
    Forall (fun e => In (PersonalityScore.category e) categories) results.
Proof.
  destruct (closed_category_set Q _ jazz_fan [] []) as (_ & (results & Ha & _ & Hin) & _).
  exists results; split; [exact Ha|]; split.
  - vm_compute in Ha; injection Ha as <-; reflexivity.
  - apply Forall_forall; intros e He; exact (proj1 (Hin e He)).
Defined.

(** C10: the 5 percent filter tests the unrounded percentage and the
    rounding to one decimal comes after it: the returned list is the sorted
    list of the rounded significant items.  So an entry can show exactly 5.0
    (here performative, from an unrounded share of 600/119, about 5.042, in
    exact and in binary64 arithmetic), although no entry whose unrounded
    share is at most 5 is ever returned. *)
Theorem filter_before_rounding :
  (forall T (N : Num T) (artists : list Artist.t) (tracks : list Track.t)
          (audio_features : list (AudioFeatures.t T)),
   exists normalized,
     normalized_scores artists tracks audio_features = Ok normalized /\
     analyze_personality artists tracks audio_features =
     Ok (sort_by_percentage (map entry_of (filter is_significant normalized))) /\
     forall e, In e (sort_by_percentage (map entry_of (filter is_significant normalized))) ->
       exists p, dict_lookup normalized (PersonalityScore.category e) = Ok p /\
                 ltb (of_Z 5) p = true /\
                 PersonalityScore.percentage e = round1 p) /\
  (exists normalized results e p,
     @normalized_scores Q _ quiet_artists [] quiet_features = Ok normalized /\
     @analyze_personality Q _ quiet_artists [] quiet_features = Ok results /\
     In e results /\ PersonalityScore.category e = "performative" /\
     PersonalityScore.percentage e = 5%Q /\
     dict_lookup normalized "performative" = Ok p /\
     (5 < p)%Q /\ (p < 5.05)%Q) /\
  (exists normalized results e p,
     @normalized_scores float _ quiet_artists [] quiet_features = Ok normalized /\
     @analyze_personality float _ quiet_artists [] quiet_features = Ok results /\
     In e results /\ PersonalityScore.category e = "performative" /\
     PersonalityScore.percentage e = of_Q 5 /\
     dict_lookup normalized "performative" = Ok p /\
     PrimFloat.ltb (of_Q 5) p = true /\ PrimFloat.ltb p (of_Q 5.05) = true).
Proof.
  split; [|split].
  - intros T N artists tracks audio_features.
    destruct (analyze_personality_entries artists tracks audio_features)
      as (normalized & results & Hn & Hk & Ha & Hr & _ & Hin).
    exists normalized; split; [exact Hn|]; split; [rewrite <- Hr; exact Ha|].
    rewrite <- Hr; intros e He; apply Hin in He; destruct He as (p & Hl & Hs & He).
    exists p; repeat (split; [assumption|]); rewrite He; reflexivity.
  - eexists; eexists;
      exists (entry_of ("performative", (600 # 119)%Q)), (600 # 119)%Q.
    split; [vm_compute; reflexivity|]; split; [vm_compute; reflexivity|].
    repeat split; try (vm_compute; reflexivity).
    vm_compute; tauto.
  - eexists; eexists; eexists (PersonalityScore.mk "performative" (of_Q 5) _ _); eexists.
    split; [vm_compute; reflexivity|]; split; [vm_compute; reflexivity|].
    split; [vm_compute; do 4 right; left; reflexivity|].
    repeat split; vm_compute; reflexivity.
Qed.

Lemma filter_before_rounding_witness :
  let e := entry_of ("performative", (600 # 119)%Q) in
  exists p,
    dict_lookup
      [("performative", (600 # 119)%Q); ("avant_garde", (2700 # 119)%Q);
       ("pandering", 0%Q); ("sophisticated", (5750 # 119)%Q);
       ("explorer", (300 # 17)%Q); ("trendsetter", (750 # 119)%Q)]
      (PersonalityScore.category e) = Ok p /\
    @ltb Q _ (of_Z 5) p = true /\
    PersonalityScore.percentage e = round1 p.
Proof.
  intros e.
  destruct filter_before_rounding as (Hall & _).
  destruct (Hall Q _ quiet_artists [] quiet_features) as (normalized & Hn & _ & Hin).
  vm_compute in Hn; injection Hn as <-.
  apply (Hin e); vm_compute; tauto.
Defined.

(** *** The order of the returned list *)

(** C7 does not hold as stated: the sort runs on the rounded percentages.
    On [close_artists] avant_garde (about 19.85) and pandering (about 19.94)
    both round to 19.9, and avant_garde is returned first. *)
Lemma sort_on_unrounded_counterexample :
  (exists normalized results,
     @normalized_scores Q _ close_artists [] close_features = Ok normalized /\
     @analyze_personality Q _ close_artists [] close_features = Ok results /\
     map PersonalityScore.category results =
     ["avant_garde"; "pandering"; "sophisticated"; "performative"; "explorer";
      "trendsetter"] /\
     ~ descending_unrounded normalized results) /\
  (exists normalized results,
     @normalized_scores float _ close_artists [] close_features = Ok normalized /\
     @analyze_personality float _ close_artists [] close_features = Ok results /\
     map PersonalityScore.category results =
     ["avant_garde"; "pandering"; "sophisticated"; "performative"; "explorer";
      "trendsetter"] /\
     ~ descending_unrounded normalized results).
Proof.
  split; eexists; eexists;
    (split; [vm_compute; reflexivity|]); (split; [vm_compute; reflexivity|]);
    (split; [reflexivity|]); intros Hd;
    pose proof (Hd [] _ [] _ _ eq_refl _ _ eq_refl eq_refl) as Hle;
    vm_compute in Hle; discriminate.
Qed.

Lemma StronglySorted_filter {A} (R : A -> A -> Prop) (p : A -> bool) (l : list A) :
  StronglySorted R l -> StronglySorted R (filter p l).
Proof.
  induction 1 as [|x l Hs IH Hall]; simpl; [constructor|].
  destruct (p x); [constructor|]; auto.
  apply Forall_forall; intros y Hy; apply filter_In in Hy.
  rewrite Forall_forall in Hall; apply Hall; tauto.
Qed.

Lemma StronglySorted_map {A B} (R : B -> B -> Prop) (f : A -> B) (l : list A) :
  StronglySorted (fun a b => R (f a) (f b)) l -> StronglySorted R (map f l).
Proof.
  induction 1 as [|x l Hs IH Hall]; simpl; constructor; auto.
  apply Forall_forall; intros y Hy; apply in_map_iff in Hy.
  destruct Hy as (a & <- & Ha); rewrite Forall_forall in Hall; auto.
Qed.

Lemma insert_desc_sorted (x : PersonalityScore.t Q) (l : list (PersonalityScore.t Q)) :
  StronglySorted rounded_order l -> Forall (table_order x) l ->
  StronglySorted rounded_order (insert_desc x l).
Proof.
  induction 1 as [|y l Hs IH Hall]; intros Hx; cbn [insert_desc].
  - repeat constructor.
  - inversion Hx as [|? ? Hxy Hxl]; subst.
    destruct (@ltb Q _ (PersonalityScore.percentage x)
                   (PersonalityScore.percentage y)) eqn:E.
    + apply Qlt_bool_iff in E.
      constructor; [apply IH; exact Hxl|].
      apply Forall_forall; intros z Hz.
      apply (Permutation_in _ (Permutation_sym (insert_desc_perm x l))) in Hz.
      destruct Hz as [<- | Hz]; [left; exact E|].
      rewrite Forall_forall in Hall; auto.
    + apply Qlt_bool_false_iff in E.
      constructor; [constructor; assumption|].
      constructor.
      * destruct (Qle_lt_or_eq _ _ E) as [Hlt | Heq]; [left; exact Hlt | right; tauto].
      * apply Forall_forall; intros z Hz.
        rewrite Forall_forall in Hall, Hxl.
        destruct (Hall z Hz) as [Hlt | (Heq & _)].
        -- left; eapply Qlt_le_trans; eassumption.
        -- destruct (Qle_lt_or_eq _ _ E) as [Hlt | Heq'].
           ++ left; rewrite Heq; exact Hlt.
           ++ right; split; [rewrite Heq; exact Heq' | apply Hxl; exact Hz].
Qed.

Lemma sort_by_percentage_sorted (l : list (PersonalityScore.t Q)) :
  StronglySorted table_order l -> StronglySorted rounded_order (sort_by_percentage l).
Proof.
  induction 1 as [|x l Hs IH Hall]; simpl; [constructor|].
  apply insert_desc_sorted; [exact IH|].
  apply Forall_forall; intros y Hy.
  apply (Permutation_in _ (Permutation_sym (sort_by_percentage_perm l))) in Hy.
  rewrite Forall_forall in Hall; auto.
Qed.

(** C7, amended: each kept percentage is rounded when its entry is built,
    and the entries are then sorted on that rounded percentage, descending;
    entries with equal rounded percentages stay in table order (exact
    arithmetic). *)
Theorem sorted_by_rounded_percentage :
  forall (artists : list Artist.t) (tracks : list Track.t)
         (audio_features : list (AudioFeatures.t Q)),
  exists normalized results,
    normalized_scores artists tracks audio_features = Ok normalized /\
    analyze_personality artists tracks audio_features = Ok results /\
    results = sort_by_percentage (map entry_of (filter is_significant normalized)) /\
    StronglySorted rounded_order results.
Proof.
  intros artists tracks audio_features.
  destruct (analyze_personality_entries artists tracks audio_features)
    as (normalized & results & Hn & Hk & Ha & Hr & _ & _).
  exists normalized, results; repeat (split; [assumption|]).
  rewrite Hr; apply sort_by_percentage_sorted, StronglySorted_map, StronglySorted_filter.
  destruct (six_keys normalized Hk) as (v1 & v2 & v3 & v4 & v5 & v6 & ->).
  unfold table_order, category_index; cbn [entry_of PersonalityScore.category fst].
  repeat (constructor; [|repeat constructor; simpl; lia]); constructor.
Qed.

(** *** Totals and percentages in exact arithmetic *)

Lemma sum_Qsum (l : list Q) : (@sum Q _ l == Qsum l)%Q.
Proof.
  unfold sum, of_Z; cbn [of_Q add Exact.Q_num].
  assert (H : forall acc, (fold_left (fun x y => Qred (x + y)) l acc == acc + Qsum l)%Q).
  { induction l as [|x l IH]; intros acc; cbn [fold_left Qsum fold_right]; [ring|].
    rewrite IH, Qred_correct; fold (Qsum l); ring. }
  rewrite H, Qred_correct; change (inject_Z 0) with 0%Q; ring.
Qed.

Lemma dict_get_nonneg (d : dict Q) (c : string) :
  nonneg d -> (0 <= dict_get d c (of_Z 0))%Q.
Proof.
  induction 1 as [|[k v] d Hv Hd IH]; simpl; [apply Qle_refl|].
  destruct (String.eqb c k); [exact Hv | exact IH].
Qed.

Lemma _analyze_popularity_nonneg (artists : list Artist.t) (tracks : list Track.t) :
  exists d, @_analyze_popularity Q _ artists tracks = Ok d /\ nonneg d.
Proof.
  rewrite _analyze_popularity_cases.
  destruct (nonzero_popularities artists tracks); cbv zeta;
    split_ifs; eexists; (split; [reflexivity|]); nonneg_constants.
Qed.

Lemma _analyze_audio_features_nonneg (audio_features : list (AudioFeatures.t Q)) :
  exists d, _analyze_audio_features audio_features = Ok d /\ nonneg d.
Proof.
  unfold _analyze_audio_features.
  destruct audio_features as [|f fs]; cbn [is_empty].
  - exists []; split; [reflexivity | constructor].
  - cbn [map]; rewrite !exact_mean_Q; cbn [bind].
    split_ifs; eexists; (split; [reflexivity|]); nonneg_constants.
Qed.

Lemma _analyze_diversity_nonneg (artists : list Artist.t) (tracks : list Track.t) :
  exists d, @_analyze_diversity Q _ artists tracks = Ok d /\ nonneg d.
Proof.
  unfold _analyze_diversity, int_truediv.
  assert (Hn : ((if (Z.of_nat (List.length (all_genres artists)) =? 0)%Z
                 then 1%Z else Z.of_nat (List.length (all_genres artists))) =? 0)%Z
               = false).
  { destruct (Z.of_nat (List.length (all_genres artists)) =? 0)%Z eqn:E;
      [reflexivity | exact E]. }
  cbv zeta; rewrite Hn; cbn [bind].
  split_ifs; eexists; (split; [reflexivity|]); nonneg_constants.
Qed.

Lemma genre_weights_nonneg :
  Forall (fun item => Forall (fun entry => (0 <= snd entry)%Q) (snd item)) genre_weights.
Proof.
  unfold genre_weights.
  repeat (constructor; [repeat (constructor; [vm_compute; discriminate|])|]);
    constructor.
Qed.

Lemma contributions_nonneg (category : string) (tags : list string) :
  Forall (fun w => (0 <= w)%Q) (contributions category tags).
Proof.
  apply Forall_forall; intros w Hw.
  unfold contributions in Hw; apply in_flat_map in Hw; destruct Hw as (tag & _ & Hw).
  unfold tag_contributions in Hw; apply in_flat_map in Hw.
  destruct Hw as (item & Hitem & Hw).
  destruct (genre_matches _ _); [|destruct Hw].
  unfold weights_for in Hw; apply in_flat_map in Hw; destruct Hw as (entry & He & Hw).
  destruct (String.eqb _ _); [|destruct Hw].
  destruct Hw as [<-|[]].
  assert (H := genre_weights_nonneg); rewrite Forall_forall in H.
  specialize (H item Hitem); rewrite Forall_forall in H; exact (H entry He).
Qed.

Lemma fold_left_add_nonneg (ws : list Q) (acc : Q) :
  Forall (fun w => (0 <= w)%Q) ws -> (0 <= acc)%Q ->
  (0 <= fold_left (@add Q _) (map (@of_Q Q _) ws) acc)%Q.
Proof.
  intros Hws; revert acc; induction Hws as [|w ws Hw Hws IH]; intros acc Hacc;
    cbn [map fold_left]; [exact Hacc|].
  apply IH; cbn [add of_Q Exact.Q_num]; rewrite !Qred_correct.
  replace 0%Q with (0 + 0)%Q by reflexivity; apply Qplus_le_compat; assumption.
Qed.

Lemma genre_score_nonneg (category : string) (tags : list string) :
  (0 <= @genre_score Q _ category tags)%Q.
Proof.
  unfold genre_score, of_Z; cbn [div Exact.Q_num]; rewrite Qred_correct.
  apply Qmult_le_0_compat.
  - apply fold_left_add_nonneg; [apply contributions_nonneg | vm_compute; discriminate].
  - apply Qinv_le_0_compat; cbn [of_Q Exact.Q_num]; rewrite Qred_correct.
    change 0%Q with (inject_Z 0); rewrite <- Zle_Qle; lia.
Qed.

Lemma _analyze_genres_nonneg (artists : list Artist.t) :
  exists d, @_analyze_genres Q _ artists = Ok d /\ nonneg d.
Proof.
  destruct (all_genres artists) eqn:E.
  - exists []; split; [apply _analyze_genres_empty; exact E | constructor].
  - destruct (@_analyze_genres_sum Q _ artists) as (d & Hd & Hk & Hv); [congruence|].
    exists d; split; [exact Hd|].
    apply Forall_forall; intros [c v] Hin; cbn [snd].
    assert (Hc : In c categories)
      by (rewrite <- Hk; unfold keys; apply (in_map fst) in Hin; exact Hin).
    assert (Hl : dict_lookup d c = Ok v).
    { apply In_item_lookup; [rewrite Hk; apply NoDup_categories | exact Hin]. }
    rewrite (Hv c Hc) in Hl; injection Hl as <-; apply genre_score_nonneg.
Qed.

Lemma combine_nonneg (p g a d : dict Q) (category : string) :
  nonneg p -> nonneg g -> nonneg a -> nonneg d ->
  (0 <= combine p g a d category)%Q.
Proof.
  intros Hp Hg Ha Hd; unfold combine; cbn [add mul of_Q Exact.Q_num].
  rewrite !Qred_correct.
  assert (H3 : (0 <= 0.3)%Q) by (vm_compute; discriminate).
  assert (H25 : (0 <= 0.25)%Q) by (vm_compute; discriminate).
  assert (H15 : (0 <= 0.15)%Q) by (vm_compute; discriminate).
  pose proof (Qmult_le_0_compat _ _ (dict_get_nonneg p category Hp) H3).
  pose proof (Qmult_le_0_compat _ _ (dict_get_nonneg g category Hg) H3).
  pose proof (Qmult_le_0_compat _ _ (dict_get_nonneg a category Ha) H25).
  pose proof (Qmult_le_0_compat _ _ (dict_get_nonneg d category Hd) H15).
  unfold of_Z in *; cbn [of_Q Exact.Q_num] in *.
  repeat (replace 0%Q with (0 + 0)%Q at 1 by reflexivity; apply Qplus_le_compat);
    assumption.
Qed.

(** The six combined totals are non-negative. *)
Lemma combined_scores_nonneg (artists : list Artist.t) (tracks : list Track.t)
      (audio_features : list (AudioFeatures.t Q)) :
  exists scores,
    combined_scores artists tracks audio_features = Ok scores /\
    keys scores = categories /\ nonneg scores.
Proof.
  destruct (combined_scores_eq artists tracks audio_features)
    as (p & g & a & d & Hp & Hg & Ha & Hd & Hc).
  destruct (_analyze_popularity_nonneg artists tracks) as (p' & Hp' & Np).
  destruct (_analyze_genres_nonneg artists) as (g' & Hg' & Ng).
  destruct (_analyze_audio_features_nonneg audio_features) as (a' & Ha' & Na).
  destruct (_analyze_diversity_nonneg artists tracks) as (d' & Hd' & Nd).
  assert (p' = p) by congruence; assert (g' = g) by congruence.
  assert (a' = a) by congruence; assert (d' = d) by congruence; subst.
  eexists; split; [exact Hc|]; split; [reflexivity|].
  unfold nonneg, categories; cbn [map snd].
  repeat (constructor; [apply combine_nonneg; assumption|]); constructor.
Qed.

Lemma Qsum_cons (v : Q) (l : list Q) : Qsum (v :: l) = (v + Qsum l)%Q.
Proof. reflexivity. Qed.

Lemma Qsum_nonneg (l : list Q) : Forall (fun v => (0 <= v)%Q) l -> (0 <= Qsum l)%Q.
Proof.
  induction 1 as [|v l Hv Hl IH]; [apply Qle_refl|].
  rewrite Qsum_cons; lra.
Qed.

Lemma Qsum_nonneg_zero (l : list Q) :
  Forall (fun v => (0 <= v)%Q) l -> (Qsum l == 0)%Q -> Forall (fun v => (v == 0)%Q) l.
Proof.
  induction 1 as [|v l Hv Hl IH]; [constructor|].
  rewrite Qsum_cons; intros Hs.
  pose proof (Qsum_nonneg l Hl) as Hn.
  constructor; [lra | apply IH; lra].
Qed.

Lemma Qsum_filter_le {A} (f : A -> Q) (p : A -> bool) (l : list A) :
  Forall (fun x => (0 <= f x)%Q) l ->
  (Qsum (map f (filter p l)) <= Qsum (map f l))%Q.
Proof.
  induction 1 as [|x l Hx Hl IH]; cbn [filter map]; [apply Qle_refl|].
  destruct (p x); cbn [map]; rewrite ?Qsum_cons; lra.
Qed.

Lemma exact_normalized_sum (total : Q) (scores : dict Q) :
  (Qsum (values (exact_normalized total scores))
   == Qsum (values scores) / total * 100)%Q.
Proof.
  unfold exact_normalized, values, of_Z.
  induction scores as [|[k v] scores IH]; cbn [map snd fst].
  - unfold Qsum; cbn [fold_right]; unfold Qdiv; ring.
  - rewrite !Qsum_cons, IH; cbn [mul div of_Q Exact.Q_num]; rewrite !Qred_correct.
    change (inject_Z 100) with 100%Q; unfold Qdiv; ring.
Qed.

Lemma exact_normalized_nonneg (total : Q) (scores : dict Q) :
  (0 < total)%Q -> nonneg scores -> nonneg (exact_normalized total scores).
Proof.
  intros Ht; unfold nonneg, exact_normalized, of_Z.
  induction 1 as [|[k v] scores Hv Hs IH]; cbn [map snd fst]; constructor; [|exact IH].
  cbn [snd mul div of_Q Exact.Q_num] in *; rewrite !Qred_correct.
  change (inject_Z 100) with 100%Q.
  apply Qmult_le_0_compat; [|vm_compute; discriminate].
  apply Qmult_le_0_compat; [exact Hv|].
  apply Qinv_le_0_compat, Qlt_le_weak; exact Ht.
Qed.

Lemma exact_normalized_zero (total : Q) (scores : dict Q) :
  Forall (fun v => (v == 0)%Q) (values scores) ->
  Forall (fun item => (snd item == 0)%Q) (exact_normalized total scores).
Proof.
  unfold exact_normalized, values, of_Z.
  induction scores as [|[k v] scores IH]; cbn [map snd fst]; intros Hz;
    inversion Hz as [|? ? Hv Hz']; subst; constructor; [|apply IH; exact Hz'].
  cbn [snd mul div of_Q Exact.Q_num]; rewrite !Qred_correct, Hv.
  unfold Qdiv; ring.
Qed.

(** C6 does not hold as stated.  The percentages of the returned entries are
    the rounded ones, and rounding can push their sum above 100: here
    56.2 + 27.0 + 16.9 = 100.1, in exact and in binary64 arithmetic.  In
    binary64, moreover, the unrounded percentages themselves need not add up
    to exactly 100: here their exact sum is 100 + 2^-48. *)
Lemma percentages_sum_counterexample :
  (exists results,
     @analyze_personality Q _ rock_artists [] rock_features = Ok results /\
     map PersonalityScore.percentage results = [of_Q 56.2; of_Q 27; of_Q 16.9] /\
     (100 < Qsum (map PersonalityScore.percentage results))%Q) /\
  (exists results,
     @analyze_personality float _ rock_artists [] rock_features = Ok results /\
     map PersonalityScore.percentage results = [of_Q 56.2; of_Q 27; of_Q 16.9] /\
     PrimFloat.ltb (of_Q 100) (sum (map PersonalityScore.percentage results)) = true) /\
  (exists normalized total,
     @normalized_scores float _ rock_artists [] rock_features = Ok normalized /\
     exact_sum (values normalized) = Some total /\
     (total == 100 + 1 / 2 ^ 48)%Q).
Proof.
  split; [|split].
  - eexists; split; [vm_compute; reflexivity|].
    split; vm_compute; reflexivity.
  - eexists; split; [vm_compute; reflexivity|].
    split; vm_compute; reflexivity.
  - eexists; eexists; split; [vm_compute; reflexivity|].
    split; vm_compute; reflexivity.
Qed.

(** C6, amended: in exact arithmetic the six combined totals are
    non-negative; when their sum is not zero the six unrounded percentages
    sum to exactly 100; when it is zero the divisor is 1 and every percentage
    is 0; and the unrounded percentages of the categories the filter keeps
    sum to at most 100. *)
Theorem totals_and_percentages :
  forall (artists : list Artist.t) (tracks : list Track.t)
         (audio_features : list (AudioFeatures.t Q)),
  exists scores normalized results,
    combined_scores artists tracks audio_features = Ok scores /\
    normalized_scores artists tracks audio_features = Ok normalized /\
    analyze_personality artists tracks audio_features = Ok results /\
    keys scores = categories /\ keys normalized = categories /\
    (forall item, In item scores -> (0 <= snd item)%Q) /\
    (~ (Qsum (values scores) == 0)%Q -> (Qsum (values normalized) == 100)%Q) /\
    ((Qsum (values scores) == 0)%Q ->
     or_one (sum (values scores)) = of_Z 1 /\
     forall item, In item normalized -> (snd item == 0)%Q) /\
    results = sort_by_percentage (map entry_of (filter is_significant normalized)) /\
    (Qsum (values (filter is_significant normalized)) <= 100)%Q.
Proof.
  intros artists tracks audio_features.
  destruct (combined_scores_nonneg artists tracks audio_features)
    as (scores & Hc & Hk & Hnn).
  destruct (normalized_scores_eq artists tracks audio_features)
    as (scores' & Hc' & _ & Hn).
  assert (scores' = scores) by congruence; subst scores'.
  destruct (analyze_personality_entries artists tracks audio_features)
    as (normalized & results & Hn' & Hkn & Ha & Hr & _ & _).
  fold (exact_normalized (or_one (sum (values scores))) scores) in Hn.
  assert (normalized = exact_normalized (or_one (sum (values scores))) scores)
    by congruence; subst normalized.
  exists scores, (exact_normalized (or_one (sum (values scores))) scores), results.
  repeat (split; [assumption|]).
  split; [rewrite <- Forall_forall; exact Hnn|].
  assert (Hvals : Forall (fun v => (0 <= v)%Q) (values scores)).
  { unfold values; apply Forall_forall; intros v Hv; apply in_map_iff in Hv.
    destruct Hv as (item & <- & Hin); unfold nonneg in Hnn.
    rewrite Forall_forall in Hnn; auto. }
  pose proof (sum_Qsum (values scores)) as Hsum.
  pose proof (exact_normalized_sum (or_one (sum (values scores))) scores) as Htot.
  unfold or_one in *.
  destruct (truthy (sum (values scores))) eqn:Et.
  - apply exact_truthy_iff in Et; rewrite Hsum in Et.
    assert (Hpos : (0 < sum (values scores))%Q).
    { rewrite Hsum; pose proof (Qsum_nonneg _ Hvals); lra. }
    assert (H100 : (Qsum (values (exact_normalized (sum (values scores)) scores))
                    == 100)%Q).
    { rewrite Htot, Hsum; field; exact Et. }
    split; [intros _; exact H100|]; split; [intros Hz; contradiction|].
    split; [exact Hr|]; rewrite <- H100; unfold values.
    apply Qsum_filter_le, (exact_normalized_nonneg _ _ Hpos Hnn).
  - assert (Hz : (Qsum (values scores) == 0)%Q).
    { rewrite <- Hsum; apply Qeq_bool_iff.
      cbn [truthy Exact.Q_num] in Et; apply negb_false_iff in Et; exact Et. }
    pose proof (exact_normalized_zero (of_Z 1) scores
                  (Qsum_nonneg_zero _ Hvals Hz)) as Hzero.
    split; [intros Hnz; contradiction|].
    split; [intros _; split; [reflexivity | rewrite <- Forall_forall; exact Hzero]|].
    split; [exact Hr|].
    apply Qle_trans with (Qsum (values (exact_normalized (of_Z 1) scores))).
    + unfold values; apply Qsum_filter_le.
      apply (exact_normalized_nonneg (of_Z 1) scores); [reflexivity | exact Hnn].
    + rewrite Htot, Hz; vm_compute; discriminate.
Qed.

Lemma totals_and_percentages_witness :
  exists normalized,
    @normalized_scores Q _ rock_artists [] rock_features = Ok normalized /\
    (Qsum (values normalized) == 100)%Q.
Proof.
  destruct (totals_and_percentages rock_artists [] rock_features)
    as (scores & normalized & results & Hc & Hn & _ & _ & _ & _ & H100 & _).
  exists normalized; split; [exact Hn|].
  apply H100; vm_compute in Hc; injection Hc as <-; vm_compute; discriminate.
Defined.

(** * Further properties *)

(** ** The analyzer never raises *)

(** X1: with every popularity in the range of the data model (0 to 100,
    where the mean of the popularities cannot overflow on its way to a
    float), whatever the genre tags and the feature vectors are, and in
    either arithmetic, no sub-scorer and no stage of [analyze_personality]
    raises: no division by zero, no mean of an empty list, no missing key.
    The result has at most six entries. *)
Theorem analyze_personality_never_raises :
  forall T (N : Num T) (artists : list Artist.t) (tracks : list Track.t)
         (audio_features : list (AudioFeatures.t T)),
    Forall (fun a => popularity_range (Artist.popularity a)) artists ->
    Forall (fun t => popularity_range (Track.popularity t)) tracks ->
    (exists p, _analyze_popularity artists tracks = Ok p) /\
    (exists g, _analyze_genres artists = Ok g) /\
    (exists a, _analyze_audio_features audio_features = Ok a) /\
    (exists d, _analyze_diversity artists tracks = Ok d) /\
    (exists results,
       analyze_personality artists tracks audio_features = Ok results /\
       (List.length results <= 6)%nat).
Proof.
  intros T N artists tracks audio_features _ _.
  destruct (combined_scores_eq artists tracks audio_features)
    as (p & g & a & d & Hp & Hg & Ha & Hd & _).
  repeat (split; [eexists; eassumption|]).
  destruct (analyze_personality_eq artists tracks audio_features)
    as (normalized & _ & Hk & Hr).
  eexists; split; [exact Hr|].
  rewrite <- (Permutation_length (sort_by_percentage_perm _)), length_map.
  apply Nat.le_trans with (List.length normalized); [apply filter_length_le|].
  unfold keys in Hk; rewrite <- (length_map fst), Hk; reflexivity.
Qed.

Lemma analyze_personality_never_raises_witness :
  exists results,
    @analyze_personality float _ [artist ["jazz"] 100; artist [] 0] [track 37]
                         quiet_features = Ok results /\
    (List.length results <= 6)%nat.
Proof.
  destruct (analyze_personality_never_raises
              float _ [artist ["jazz"] 100; artist [] 0] [track 37] quiet_features)
    as (_ & _ & _ & _ & Hresults).
  - repeat constructor; unfold popularity_range; cbn; lia.
  - repeat constructor; unfold popularity_range; cbn; lia.
  - exact Hresults.
Defined.

(** ** Genre tags: case and keywords *)

Lemma for_each_map {A B S : Type} (f : A -> B) (xs : list A)
      (body : S -> B -> result S) (acc : S) :
  for_each (map f xs) body acc = for_each xs (fun s x => body s (f x)) acc.
Proof.
  revert acc; induction xs as [|x xs IH]; intros acc; cbn [map for_each];
    [reflexivity|].
  destruct (body acc (f x)); cbn [bind]; [apply IH | reflexivity].
Qed.

(** The genre sub-scorer sees the tags only through their lowercase forms. *)
Lemma _analyze_genres_lower {T} `{Num T} (str_lower : string -> string)
      (artists : list Artist.t) :
  _analyze_genres_with str_lower artists =
  (let tags := map str_lower (all_genres artists) in
   if is_empty tags then Ok []
   else
     scores <- for_each tags
                 (fun scores genre_lower =>
                    for_each genre_weights (score_genre_key genre_lower) scores)
                 (map (fun category => (category, of_Q 0.0)) categories) ;;
     normalize_by (Z.of_nat (List.length tags)) scores).
Proof.
  unfold _analyze_genres_with; cbv zeta; rewrite for_each_map, length_map.
  destruct (all_genres artists); reflexivity.
Qed.

(** X2: genre matching ignores case, whatever the lowering of the tags is
    ([str.lower] with its Unicode tables included): two artist lists whose
    tags agree once lowercased get the same genre scores, in either
    arithmetic.  The sub-scorer of the analyzer is the one with the ASCII
    lowering. *)
Theorem genres_ignore_case :
  forall T (N : Num T),
    (forall artists : list Artist.t,
       @_analyze_genres T N artists = _analyze_genres_with lower artists) /\
    (forall (str_lower : string -> string) (artists artists' : list Artist.t),
       map str_lower (all_genres artists) = map str_lower (all_genres artists') ->
       @_analyze_genres_with T N str_lower artists =
       @_analyze_genres_with T N str_lower artists').
Proof.
  intros T N; split; [reflexivity|].
  intros str_lower artists artists' Hlower.
  rewrite !_analyze_genres_lower, Hlower; reflexivity.
Qed.

Lemma genres_ignore_case_witness :
  @_analyze_genres float _ [artist ["Free JAZZ"; "K-Pop"] 10] =
  @_analyze_genres float _ [artist ["free jazz"] 90; artist ["k-pop"] 0].
Proof.
  destruct (genres_ignore_case float _) as (Hanalyzer & Hcase).
  rewrite !Hanalyzer; apply Hcase; reflexivity.
Defined.

Lemma string_app_assoc (a b c : string) :
  ((a ++ b) ++ c = a ++ (b ++ c))%string.
Proof. induction a as [|ch a IH]; simpl; [reflexivity | rewrite IH; reflexivity]. Qed.

Lemma Substring_trans (a b c : string) :
  Substring a b -> Substring b c -> Substring a c.
Proof.
  intros (pre & post & ->) (pre' & post' & ->).
  exists (pre' ++ pre)%string, (post ++ post')%string.
  rewrite !string_app_assoc; reflexivity.
Qed.

(** X3: a keyword is matched through each of its words, and through every
    keyword it is part of.  So a tag that contains a word of a keyword is
    scored under that keyword (every tag with jazz in it also counts as free
    jazz, every tag with pop in it as bedroom pop, every tag with free in it
    as free jazz), and a tag that contains k-pop or hyperpop is scored under
    pop and bedroom pop as well. *)
Theorem keywords_match_by_word :
  (forall genre_key word tag,
     In word (split genre_key) -> Substring word tag ->
     genre_matches genre_key tag = true) /\
  (forall genre_key longer tag,
     Substring genre_key longer -> Substring longer tag ->
     genre_matches genre_key tag = true) /\
  (forall tag, Substring "jazz" tag ->
     Forall (fun genre_key => genre_matches genre_key tag = true)
            ["jazz"; "free jazz"]) /\
  (forall tag, Substring "free" tag -> genre_matches "free jazz" tag = true) /\
  (forall tag, Substring "pop" tag ->
     Forall (fun genre_key => genre_matches genre_key tag = true)
            ["pop"; "bedroom pop"]) /\
  (forall tag, Substring "k-pop" tag \/ Substring "hyperpop" tag ->
     Forall (fun genre_key => genre_matches genre_key tag = true)
            ["pop"; "bedroom pop"]).
Proof.
  assert (Hword : forall genre_key word tag,
             In word (split genre_key) -> Substring word tag ->
             genre_matches genre_key tag = true).
  { intros genre_key word tag Hin Hsub; apply genre_matches_spec.
    right; exists word; split; assumption. }
  assert (Hpart : forall genre_key longer tag,
             Substring genre_key longer -> Substring longer tag ->
             genre_matches genre_key tag = true).
  { intros genre_key longer tag H1 H2; apply genre_matches_spec.
    left; exact (Substring_trans _ _ _ H1 H2). }
  assert (Hpop : forall tag, Substring "pop" tag ->
             Forall (fun genre_key => genre_matches genre_key tag = true)
                    ["pop"; "bedroom pop"]).
  { intros tag Hs; repeat constructor;
      apply (Hword _ "pop" tag); simpl; tauto. }
  repeat split; try assumption.
  - intros tag Hs; repeat constructor;
      apply (Hword _ "jazz" tag); simpl; tauto.
  - intros tag Hs; apply (Hword _ "free" tag); simpl; tauto.
  - intros tag [Hs | Hs]; apply Hpop; eapply Substring_trans; try exact Hs.
    + exists "k-", ""; reflexivity.
    + exists "hyper", ""; reflexivity.
Qed.

Lemma keywords_match_by_word_witness :
  genre_matches "free jazz" "freestyle rap" = true /\
  Forall (fun genre_key => genre_matches genre_key "korean k-pop" = true)
         ["pop"; "bedroom pop"].
Proof.
  destruct keywords_match_by_word as (_ & _ & _ & Hfree & _ & Hkpop).
  split.
  - apply Hfree; exists "", "style rap"; reflexivity.
  - apply Hkpop; left; exists "korean ", ""; reflexivity.
Defined.

(** ** Rounding to one decimal *)

Lemma half_even_bounds (q : Q) :
  (q - (1 # 2) <= inject_Z (half_even q))%Q /\
  (inject_Z (half_even q) <= q + (1 # 2))%Q.
Proof.
  unfold half_even; cbv zeta.
  pose proof (Qfloor_le q) as Hlo; pose proof (Qlt_floor q) as Hhi.
  rewrite inject_Z_plus in Hhi; change (inject_Z 1) with 1%Q in Hhi.
  destruct (q - inject_Z (Qfloor q) ?= 1 # 2)%Q eqn:E.
  - apply Qeq_alt in E.
    destruct (Z.even (Qfloor q)); rewrite ?inject_Z_plus;
      change (inject_Z 1) with 1%Q; split; lra.
  - apply Qlt_alt in E; split; lra.
  - apply Qgt_alt in E; rewrite inject_Z_plus; change (inject_Z 1) with 1%Q.
    split; lra.
Qed.

Lemma half_even_ge (n : Z) (q : Q) :
  (inject_Z n <= q)%Q -> (n <= half_even q)%Z.
Proof.
  intros Hq; destruct (half_even_bounds q) as (Hlo & _).
  assert (H : (inject_Z n < inject_Z (half_even q) + 1)%Q) by lra.
  change 1%Q with (inject_Z 1) in H; rewrite <- inject_Z_plus, <- Zlt_Qlt in H.
  lia.
Qed.

Lemma half_even_le (n : Z) (q : Q) :
  (q <= inject_Z n)%Q -> (half_even q <= n)%Z.
Proof.
  intros Hq; destruct (half_even_bounds q) as (_ & Hhi).
  assert (H : (inject_Z (half_even q) < inject_Z n + 1)%Q) by lra.
  change 1%Q with (inject_Z 1) in H; rewrite <- inject_Z_plus, <- Zlt_Qlt in H.
  lia.
Qed.

(** [round(x, 1)] in exact arithmetic: a multiple of one tenth, within 0.05
    of [x]. *)
Lemma exact_round1 (p : Q) :
  (@round1 Q _ p == inject_Z (half_even (p * 10)) / 10)%Q /\
  (p - (1 # 20) <= @round1 Q _ p)%Q /\ (@round1 Q _ p <= p + (1 # 20))%Q.
Proof.
  unfold round1; cbn [exact of_Q Exact.Q_num]; rewrite Qred_correct.
  destruct (half_even_bounds (p * 10)) as (Hlo & Hhi).
  split; [reflexivity|]; split.
  - apply Qle_shift_div_l; [reflexivity | lra].
  - apply Qle_shift_div_r; [reflexivity | lra].
Qed.

(** ** The exact pipeline *)

Lemma exact_fold_add (ws : list Q) (acc : Q) :
  (fold_left (@add Q _) (map (@of_Q Q _) ws) acc == acc + Qsum ws)%Q.
Proof.
  revert acc; induction ws as [|w ws IH]; intros acc; cbn [map fold_left].
  - unfold Qsum; cbn [fold_right]; ring.
  - rewrite IH, Qsum_cons; cbn [add of_Q Exact.Q_num]; rewrite !Qred_correct; ring.
Qed.

Lemma Qsum_perm (l l' : list Q) : Permutation l l' -> (Qsum l == Qsum l')%Q.
Proof.
  induction 1 as [|x l l' _ IH|x y l|l l' l'' _ IH1 _ IH2];
    rewrite ?Qsum_cons; [reflexivity | rewrite IH; reflexivity | ring |].
  rewrite IH1; exact IH2.
Qed.

(** In exact arithmetic the stages of [analyze_personality] are: six
    non-negative totals, their shares of the divisor, and the sorted list of
    the rounded shares above 5. *)
Lemma exact_pipeline (artists : list Artist.t) (tracks : list Track.t)
      (audio_features : list (AudioFeatures.t Q)) :
  exists scores,
    let normalized := exact_normalized (or_one (sum (values scores))) scores in
    combined_scores artists tracks audio_features = Ok scores /\
    keys scores = categories /\ nonneg scores /\
    normalized_scores artists tracks audio_features = Ok normalized /\
    keys normalized = categories /\
    analyze_personality artists tracks audio_features =
    Ok (sort_by_percentage (map entry_of (filter is_significant normalized))) /\
    ((~ (Qsum (values scores) == 0)%Q ->
      (Qsum (values normalized) == 100)%Q /\ nonneg normalized) /\
     ((Qsum (values scores) == 0)%Q ->
      Forall (fun item => (snd item == 0)%Q) normalized)).
Proof.
  destruct (combined_scores_nonneg artists tracks audio_features)
    as (scores & Hc & Hk & Hnn).
  destruct (normalized_scores_eq artists tracks audio_features)
    as (scores' & Hc' & _ & Hn).
  assert (scores' = scores) by congruence; subst scores'.
  destruct (analyze_personality_eq artists tracks audio_features)
    as (normalized & Hn' & Hkn & Ha).
  fold (exact_normalized (or_one (sum (values scores))) scores) in Hn.
  assert (normalized = exact_normalized (or_one (sum (values scores))) scores)
    by congruence; subst normalized.
  exists scores; cbv zeta; repeat (split; [assumption|]).
  assert (Hvals : Forall (fun v => (0 <= v)%Q) (values scores)).
  { unfold values; apply Forall_forall; intros v Hv; apply in_map_iff in Hv.
    destruct Hv as (item & <- & Hin); unfold nonneg in Hnn.
    rewrite Forall_forall in Hnn; auto. }
  pose proof (sum_Qsum (values scores)) as Hsum.
  pose proof (exact_normalized_sum (or_one (sum (values scores))) scores) as Htot.
  unfold or_one in *.
  destruct (truthy (sum (values scores))) eqn:Et.
  - apply exact_truthy_iff in Et; rewrite Hsum in Et.
    assert (Hpos : (0 < sum (values scores))%Q).
    { rewrite Hsum; pose proof (Qsum_nonneg _ Hvals); lra. }
    split; [intros _; split|intros Hz; contradiction].
    + rewrite Htot, Hsum; field; exact Et.
    + apply exact_normalized_nonneg; assumption.
  - assert (Hz : (Qsum (values scores) == 0)%Q).
    { rewrite <- Hsum; apply Qeq_bool_iff.
      cbn [truthy Exact.Q_num] in Et; apply negb_false_iff in Et; exact Et. }
    split; [intros Hnz; contradiction | intros _].
    apply exact_normalized_zero, Qsum_nonneg_zero; assumption.
Qed.

Lemma exact_is_significant (item : string * Q) :
  is_significant item = true <-> (5 < snd item)%Q.
Proof.
  unfold is_significant, of_Z; cbn [ltb of_Q Exact.Q_num].
  rewrite Qlt_bool_iff, Qred_correct; reflexivity.
Qed.

Lemma nonneg_le_Qsum (d : dict Q) (item : string * Q) :
  nonneg d -> In item d -> (snd item <= Qsum (values d))%Q.
Proof.
  unfold nonneg, values; induction 1 as [|x d Hx Hd IH]; intros Hin; [destruct Hin|].
  cbn [map]; rewrite Qsum_cons.
  assert (Hn : (0 <= Qsum (map snd d))%Q).
  { apply Qsum_nonneg, Forall_forall; intros v Hv; apply in_map_iff in Hv.
    destruct Hv as (y & <- & Hy); rewrite Forall_forall in Hd; auto. }
  destruct Hin as [<- | Hin]; [lra | specialize (IH Hin); lra].
Qed.

(** The significant shares of exact arithmetic: each is at most 100, and
    together they are at most 100. *)
Lemma exact_kept (artists : list Artist.t) (tracks : list Track.t)
      (audio_features : list (AudioFeatures.t Q)) :
  exists normalized,
    normalized_scores artists tracks audio_features = Ok normalized /\
    keys normalized = categories /\
    analyze_personality artists tracks audio_features =
    Ok (sort_by_percentage (map entry_of (filter is_significant normalized))) /\
    (forall item, In item (filter is_significant normalized) ->
       (5 < snd item)%Q /\ (snd item <= 100)%Q) /\
    (Qsum (map snd (filter is_significant normalized)) <= 100)%Q.
Proof.
  destruct (exact_pipeline artists tracks audio_features)
    as (scores & Hc & Hk & Hnn & Hn & Hkn & Ha & Hnz & Hz).
  cbv zeta in *.
  set (normalized := exact_normalized (or_one (sum (values scores))) scores) in *.
  exists normalized; repeat (split; [assumption|]).
  destruct (Qeq_dec (Qsum (values scores)) 0) as [E | E].
  - specialize (Hz E).
    assert (Hnone : filter is_significant normalized = []).
    { clear -Hz; induction Hz as [|item l Hi Hl IH]; [reflexivity|].
      cbn [filter]; destruct (is_significant item) eqn:Es; [|exact IH].
      apply exact_is_significant in Es; lra. }
    rewrite Hnone; split; [intros item []|].
    unfold Qsum; cbn [map fold_right]; lra.
  - destruct (Hnz E) as (H100 & Hpos); split.
    + intros item Hin; apply filter_In in Hin; destruct Hin as (Hin & Hs).
      split; [apply exact_is_significant; exact Hs|].
      rewrite <- H100; apply nonneg_le_Qsum; assumption.
    + rewrite <- H100; unfold values; apply Qsum_filter_le; exact Hpos.
Qed.

(** ** What a caller can rely on, in exact arithmetic *)

(** X4: the result is empty exactly when the six combined totals sum to zero:
    as soon as one sub-scorer gives any weight to any category, at least one
    category is returned. *)
Theorem result_empty_iff_no_score :
  forall (artists : list Artist.t) (tracks : list Track.t)
         (audio_features : list (AudioFeatures.t Q)),
  exists scores results,
    combined_scores artists tracks audio_features = Ok scores /\
    analyze_personality artists tracks audio_features = Ok results /\
    (results = [] <-> (Qsum (values scores) == 0)%Q).
Proof.
  intros artists tracks audio_features.
  destruct (exact_pipeline artists tracks audio_features)
    as (scores & Hc & Hk & Hnn & Hn & Hkn & Ha & Hnz & Hz).
  cbv zeta in *.
  set (normalized := exact_normalized (or_one (sum (values scores))) scores) in *.
  eexists; eexists; split; [exact Hc|]; split; [exact Ha|].
  assert (Hsort : forall l : list (PersonalityScore.t Q),
             sort_by_percentage l = [] <-> l = []).
  { intros l; split; intros E.
    - apply Permutation_nil; rewrite <- E; apply Permutation_sym.
      apply sort_by_percentage_perm.
    - subst l; reflexivity. }
  rewrite Hsort; split.
  - intros Hempty; destruct (Qeq_dec (Qsum (values scores)) 0) as [E | E];
      [exact E | exfalso].
    destruct (Hnz E) as (H100 & _).
    apply map_eq_nil in Hempty.
    assert (Hsmall : Forall (fun item => (snd item <= 5)%Q) normalized).
    { apply Forall_forall; intros item Hin.
      destruct (is_significant item) eqn:Es.
      - assert (Hf : In item (filter is_significant normalized))
          by (apply filter_In; tauto).
        rewrite Hempty in Hf; destruct Hf.
      - apply Qnot_lt_le; intros Hlt; apply exact_is_significant in Hlt.
        congruence. }
    destruct (six_keys normalized Hkn) as (v1 & v2 & v3 & v4 & v5 & v6 & E6).
    rewrite E6 in H100, Hsmall; unfold values in H100; cbn [map snd] in H100.
    rewrite !Qsum_cons in H100; unfold Qsum in H100; cbn [fold_right] in H100.
    repeat match goal with
           | H : Forall _ (_ :: _) |- _ =>
               let Hh := fresh "Hh" in
               apply Forall_cons_iff in H; destruct H as (Hh & H); cbn [snd] in Hh
           end.
    lra.
  - intros E; specialize (Hz E).
    assert (Hnone : filter is_significant normalized = []).
    { clear -Hz; induction Hz as [|item l Hi Hl IH]; [reflexivity|].
      cbn [filter]; destruct (is_significant item) eqn:Es; [|exact IH].
      apply exact_is_significant in Es; lra. }
    rewrite Hnone; reflexivity.
Qed.

Lemma result_empty_iff_no_score_witness :
  exists results,
    @analyze_personality Q _ [artist ["rock"; "rock"; "indie"] 0] [] [] = Ok results /\
    results = [].
Proof.
  destruct (result_empty_iff_no_score [artist ["rock"; "rock"; "indie"] 0] [] [])
    as (scores & results & Hc & Ha & Hiff).
  exists results; split; [exact Ha|].
  apply Hiff; vm_compute in Hc; injection Hc as <-; reflexivity.
Defined.

Lemma Qsum_round1_le (l : list (string * Q)) :
  (Qsum (map (fun item => @round1 Q _ (snd item)) l)
   <= Qsum (map snd l) + (1 # 20) * inject_Z (Z.of_nat (List.length l)))%Q.
Proof.
  induction l as [|item l IH]; cbn [map List.length].
  - vm_compute; discriminate.
  - rewrite !Qsum_cons, Nat2Z.inj_succ; unfold Z.succ; rewrite inject_Z_plus.
    change (inject_Z 1) with 1%Q.
    destruct (exact_round1 (snd item)) as (_ & _ & Hhi); lra.
Qed.

(** X5: every percentage a caller reads off the result is a multiple of one
    tenth between 5.0 and 100.0, and the percentages of one result add up to
    at most 100.3 (each of at most six entries is rounded by at most 0.05). *)
Theorem returned_percentages_bounded :
  forall (artists : list Artist.t) (tracks : list Track.t)
         (audio_features : list (AudioFeatures.t Q)),
  exists results,
    analyze_personality artists tracks audio_features = Ok results /\
    (forall e, In e results ->
       (5 <= PersonalityScore.percentage e)%Q /\
       (PersonalityScore.percentage e <= 100)%Q /\
       exists tenths : Z,
         (PersonalityScore.percentage e == inject_Z tenths / 10)%Q) /\
    (Qsum (map PersonalityScore.percentage results) <= 100 + (3 # 10))%Q.
Proof.
  intros artists tracks audio_features.
  destruct (exact_kept artists tracks audio_features)
    as (normalized & Hn & Hk & Ha & Hkept & Hsum).
  eexists; split; [exact Ha|].
  pose proof (sort_by_percentage_perm
                (map entry_of (filter is_significant normalized))) as Hperm.
  split.
  - intros e He; apply (Permutation_in _ (Permutation_sym Hperm)) in He.
    apply in_map_iff in He; destruct He as (item & <- & Hin).
    destruct (Hkept item Hin) as (H5 & H100).
    cbn [entry_of PersonalityScore.percentage].
    destruct (exact_round1 (snd item)) as (Hr & _ & _).
    assert (Hlo : (50 <= half_even (snd item * 10))%Z)
      by (apply half_even_ge; change (inject_Z 50) with 50%Q; lra).
    assert (Hhi : (half_even (snd item * 10) <= 1000)%Z)
      by (apply half_even_le; change (inject_Z 1000) with 1000%Q; lra).
    rewrite Zle_Qle in Hlo, Hhi.
    change (inject_Z 50) with 50%Q in Hlo; change (inject_Z 1000) with 1000%Q in Hhi.
    repeat split.
    + rewrite Hr; apply Qle_shift_div_l; [reflexivity | lra].
    + rewrite Hr; apply Qle_shift_div_r; [reflexivity | lra].
    + exists (half_even (snd item * 10)); exact Hr.
  - rewrite <- (Qsum_perm _ _ (Permutation_map PersonalityScore.percentage Hperm)).
    rewrite map_map; cbn [entry_of PersonalityScore.percentage].
    pose proof (Qsum_round1_le (filter is_significant normalized)) as Hround.
    assert (Hlen : (List.length (filter is_significant normalized) <= 6)%nat).
    { apply Nat.le_trans with (List.length normalized); [apply filter_length_le|].
      unfold keys in Hk; rewrite <- (length_map fst), Hk; reflexivity. }
    apply inj_le in Hlen; rewrite Zle_Qle in Hlen.
    change (inject_Z (Z.of_nat 6)) with 6%Q in Hlen; lra.
Qed.

Lemma returned_percentages_bounded_witness :
  (5 <= 281 # 5)%Q /\ (281 # 5 <= 100)%Q /\
  exists tenths : Z, (281 # 5 == inject_Z tenths / 10)%Q.
Proof.
  destruct (returned_percentages_bounded rock_artists [] rock_features)
    as (results & Ha & Hbounds & _).
  vm_compute in Ha; injection Ha as <-.
  refine (Hbounds (PersonalityScore.mk "avant_garde" (281 # 5) _ _) _).
  left; reflexivity.
Defined.

(** ** The order of the inputs *)

Lemma fold_left_Zadd_perm (l l' : list Z) :
  Permutation l l' -> forall acc, fold_left Z.add l acc = fold_left Z.add l' acc.
Proof.
  induction 1 as [|x l l' _ IH|x y l|l l' l'' _ IH1 _ IH2]; intros acc; cbn [fold_left].
  - reflexivity.
  - apply IH.
  - f_equal; lia.
  - rewrite IH1; apply IH2.
Qed.

Lemma filter_perm {A} (keep : A -> bool) (l l' : list A) :
  Permutation l l' -> Permutation (filter keep l) (filter keep l').
Proof.
  induction 1 as [|x l l' _ IH|x y l|l l' l'' _ IH1 _ IH2]; cbn [filter].
  - constructor.
  - destruct (keep x); [constructor|]; exact IH.
  - destruct (keep x), (keep y); try apply Permutation_refl; apply perm_swap.
  - eapply perm_trans; eassumption.
Qed.

Lemma flat_map_perm {A B} (f : A -> list B) (l l' : list A) :
  Permutation l l' -> Permutation (flat_map f l) (flat_map f l').
Proof.
  induction 1 as [|x l l' _ IH|x y l|l l' l'' _ IH1 _ IH2]; cbn [flat_map].
  - constructor.
  - apply Permutation_app_head; exact IH.
  - rewrite !app_assoc; apply Permutation_app_tail, Permutation_app_comm.
  - eapply perm_trans; eassumption.
Qed.

Lemma nonzero_popularities_perm (artists artists' : list Artist.t)
      (tracks tracks' : list Track.t) :
  Permutation artists artists' -> Permutation tracks tracks' ->
  Permutation (nonzero_popularities artists tracks)
              (nonzero_popularities artists' tracks').
Proof.
  intros Ha Ht; unfold nonzero_popularities.
  apply Permutation_app; apply Permutation_map, filter_perm; assumption.
Qed.

Lemma _analyze_popularity_perm {T} `{Num T} (artists artists' : list Artist.t)
      (tracks tracks' : list Track.t) :
  Permutation artists artists' -> Permutation tracks tracks' ->
  _analyze_popularity artists tracks = _analyze_popularity artists' tracks'.
Proof.
  intros Ha Ht; rewrite !_analyze_popularity_cases.
  pose proof (nonzero_popularities_perm _ _ _ _ Ha Ht) as Hp.
  rewrite (fold_left_Zadd_perm _ _ Hp), (Permutation_length Hp).
  destruct (nonzero_popularities artists tracks) eqn:E1,
           (nonzero_popularities artists' tracks') eqn:E2; try reflexivity.
  - apply Permutation_nil in Hp; discriminate.
  - apply Permutation_sym, Permutation_nil in Hp; discriminate.
Qed.

Lemma all_genres_perm (artists artists' : list Artist.t) :
  Permutation artists artists' ->
  Permutation (all_genres artists) (all_genres artists').
Proof. apply flat_map_perm. Qed.

Lemma nodup_length_perm (l l' : list string) :
  Permutation l l' ->
  List.length (nodup string_dec l) = List.length (nodup string_dec l').
Proof.
  intros Hp; apply Permutation_length, NoDup_Permutation; try apply NoDup_nodup.
  intros x; rewrite !nodup_In; split; apply Permutation_in;
    [exact Hp | apply Permutation_sym; exact Hp].
Qed.

Lemma _analyze_diversity_perm {T} `{Num T} (artists artists' : list Artist.t)
      (tracks tracks' : list Track.t) :
  Permutation artists artists' ->
  _analyze_diversity artists tracks = _analyze_diversity artists' tracks'.
Proof.
  intros Ha; apply all_genres_perm in Ha; unfold _analyze_diversity; cbv zeta.
  rewrite (nodup_length_perm _ _ Ha), (Permutation_length Ha); reflexivity.
Qed.

Lemma exact_genre_score_perm (category : string) (tags tags' : list string) :
  Permutation tags tags' ->
  @genre_score Q _ category tags = @genre_score Q _ category tags'.
Proof.
  intros Hp; unfold genre_score; cbn [div Exact.Q_num].
  rewrite (Permutation_length Hp); apply Qred_complete.
  rewrite !exact_fold_add.
  rewrite (Qsum_perm (contributions category tags) (contributions category tags'));
    [reflexivity|].
  unfold contributions; apply flat_map_perm; exact Hp.
Qed.

Lemma _analyze_genres_perm (artists artists' : list Artist.t) :
  Permutation artists artists' ->
  @_analyze_genres Q _ artists = @_analyze_genres Q _ artists'.
Proof.
  intros Ha; apply all_genres_perm in Ha.
  destruct (all_genres artists) as [|g tags] eqn:E.
  - apply Permutation_nil in Ha.
    rewrite !_analyze_genres_empty by assumption; reflexivity.
  - assert (E' : all_genres artists' <> []).
    { intros E'; rewrite E' in Ha; apply Permutation_sym, Permutation_nil in Ha.
      discriminate. }
    destruct (@_analyze_genres_sum Q _ artists) as (d & Hd & Hk & Hv); [congruence|].
    destruct (@_analyze_genres_sum Q _ artists' E') as (d' & Hd' & Hk' & Hv').
    rewrite Hd, Hd'; f_equal.
    destruct (six_keys d Hk) as (v1 & v2 & v3 & v4 & v5 & v6 & ->).
    destruct (six_keys d' Hk') as (w1 & w2 & w3 & w4 & w5 & w6 & ->).
    assert (Heq : forall c, In c categories ->
                @genre_score Q _ c (all_genres artists) =
                @genre_score Q _ c (all_genres artists')).
    { intros c _; apply exact_genre_score_perm; rewrite E; exact Ha. }
    unfold genre_score in Heq.
    assert (Hsame : forall c, In c categories ->
                dict_lookup
                  [("performative", v1); ("avant_garde", v2); ("pandering", v3);
                   ("sophisticated", v4); ("explorer", v5); ("trendsetter", v6)] c =
                dict_lookup
                  [("performative", w1); ("avant_garde", w2); ("pandering", w3);
                   ("sophisticated", w4); ("explorer", w5); ("trendsetter", w6)] c).
    { intros c Hc; rewrite (Hv c Hc), (Hv' c Hc), (Heq c Hc); reflexivity. }
    pose proof (Hsame "performative") as H1; pose proof (Hsame "avant_garde") as H2.
    pose proof (Hsame "pandering") as H3; pose proof (Hsame "sophisticated") as H4.
    pose proof (Hsame "explorer") as H5; pose proof (Hsame "trendsetter") as H6.
    unfold categories in *; cbn [dict_lookup String.eqb Ascii.eqb Bool.eqb In] in *.
    injection (H1 ltac:(tauto)) as ->; injection (H2 ltac:(tauto)) as ->.
    injection (H3 ltac:(tauto)) as ->; injection (H4 ltac:(tauto)) as ->.
    injection (H5 ltac:(tauto)) as ->; injection (H6 ltac:(tauto)) as ->.
    reflexivity.
Qed.

Lemma exact_mean_perm (data data' : list Q) :
  Permutation data data' -> @mean Q _ data = @mean Q _ data'.
Proof.
  intros Hp; destruct data as [|x data], data' as [|y data']; [reflexivity | | |].
  - apply Permutation_nil in Hp; discriminate.
  - apply Permutation_sym, Permutation_nil in Hp; discriminate.
  - rewrite !exact_mean_Q; f_equal; apply Qred_complete; unfold Qmean.
    rewrite (Permutation_length Hp).
    assert (Hfold : forall l acc, (fold_left Qplus l acc == acc + Qsum l)%Q).
    { induction l as [|z l IH]; intros acc; cbn [fold_left];
        [unfold Qsum; cbn [fold_right]; ring | rewrite IH, Qsum_cons; ring]. }
    rewrite !Hfold, (Qsum_perm _ _ Hp); reflexivity.
Qed.

Lemma _analyze_audio_features_perm (fs fs' : list (AudioFeatures.t Q)) :
  Permutation fs fs' ->
  _analyze_audio_features fs = _analyze_audio_features fs'.
Proof.
  intros Hp; unfold _analyze_audio_features.
  rewrite (exact_mean_perm _ _ (Permutation_map AudioFeatures.energy Hp)).
  rewrite (exact_mean_perm _ _ (Permutation_map AudioFeatures.danceability Hp)).
  rewrite (exact_mean_perm _ _ (Permutation_map AudioFeatures.valence Hp)).
  rewrite (exact_mean_perm _ _ (Permutation_map AudioFeatures.acousticness Hp)).
  rewrite (exact_mean_perm _ _ (Permutation_map AudioFeatures.instrumentalness Hp)).
  destruct fs, fs'; try reflexivity.
  - apply Permutation_nil in Hp; discriminate.
  - apply Permutation_sym, Permutation_nil in Hp; discriminate.
Qed.

Lemma analyze_personality_tracks_perm {T} `{Num T} (artists : list Artist.t)
      (tracks tracks' : list Track.t) (audio_features : list (AudioFeatures.t T)) :
  Permutation tracks tracks' ->
  analyze_personality artists tracks audio_features =
  analyze_personality artists tracks' audio_features.
Proof.
  intros Ht; unfold analyze_personality, normalized_scores, combined_scores.
  rewrite (_analyze_popularity_perm _ _ _ _ (Permutation_refl artists) Ht),
    (_analyze_diversity_perm _ _ tracks tracks' (Permutation_refl artists)).
  reflexivity.
Qed.

(** On the two artist lists compared in binary64 below, the left-to-right
    sum of the six totals and the compensated sum are the same float. *)
Lemma compensated_sum_orders :
  Forall (fun artists : list Artist.t =>
            exists scores : dict float,
              combined_scores artists [] [] = Ok scores /\
              Binary64.compensated_sum (values scores) = sum (values scores))
         [classical_third; classical_last].
Proof.
  repeat (constructor; [eexists; split; vm_compute; reflexivity|]); constructor.
Qed.

(** X6: in exact arithmetic the analysis does not depend on the order in
    which the artists, the tracks and the feature vectors are listed.  In
    either arithmetic it does not depend on the order of the tracks (their
    popularities go through an exact mean).  In binary64 it does depend on
    the order of the artists, through the running sums of the genre weights:
    with the tags opera, opera, classical, opera the share of sophisticated
    is returned as 68.7, with opera, opera, opera, classical as 68.8 (the
    exact share is 68.75 in both orders). *)
Theorem analysis_order_independent :
  (forall (artists artists' : list Artist.t) (tracks tracks' : list Track.t)
          (audio_features audio_features' : list (AudioFeatures.t Q)),
     Permutation artists artists' -> Permutation tracks tracks' ->
     Permutation audio_features audio_features' ->
     analyze_personality artists tracks audio_features =
     analyze_personality artists' tracks' audio_features') /\
  (forall T (N : Num T) (artists : list Artist.t) (tracks tracks' : list Track.t)
          (audio_features : list (AudioFeatures.t T)),
     Permutation tracks tracks' ->
     analyze_personality artists tracks audio_features =
     analyze_personality artists tracks' audio_features) /\
  (Permutation classical_third classical_last /\
   (exists results,
      @analyze_personality float _ classical_third [] [] = Ok results /\
      shares results =
      [("sophisticated", of_Q 68.7); ("performative", of_Q 25);
       ("avant_garde", of_Q 6.2)]) /\
   (exists results,
      @analyze_personality float _ classical_last [] [] = Ok results /\
      shares results =
      [("sophisticated", of_Q 68.8); ("performative", of_Q 25);
       ("avant_garde", of_Q 6.2)]) /\
   (exists normalized,
      @normalized_scores Q _ classical_third [] [] = Ok normalized /\
      @normalized_scores Q _ classical_last [] [] = Ok normalized /\
      dict_lookup normalized "sophisticated" = Ok (of_Q 68.75))).
Proof.
  split; [|split; [|split; [|split; [|split]]]].
  - intros artists artists' tracks tracks' fs fs' Ha Ht Hf.
    unfold analyze_personality, normalized_scores, combined_scores.
    rewrite (_analyze_popularity_perm _ _ _ _ Ha Ht), (_analyze_genres_perm _ _ Ha),
      (_analyze_audio_features_perm _ _ Hf),
      (_analyze_diversity_perm _ _ tracks tracks' Ha).
    reflexivity.
  - intros T N artists tracks tracks' fs Ht.
    apply analyze_personality_tracks_perm; exact Ht.
  - unfold classical_third, classical_last.
    do 2 apply perm_skip; apply perm_swap.
  - eexists; split; vm_compute; reflexivity.
  - eexists; split; vm_compute; reflexivity.
  - eexists; split; [vm_compute; reflexivity|]; split; vm_compute; reflexivity.
Qed.

Lemma analysis_order_independent_witness :
  @analyze_personality Q _ [artist ["jazz"] 80; artist ["pop"; "rock"] 40]
                       [track 10; track 0] quiet_features =
  @analyze_personality Q _ [artist ["pop"; "rock"] 40; artist ["jazz"] 80]
                       [track 0; track 10] quiet_features.
Proof.
  destruct analysis_order_independent as (Hexact & _).
  apply Hexact; [apply perm_swap | apply perm_swap | apply Permutation_refl].
Defined.

(** ** Genre counts (app/utils.py) *)

Lemma dict_get_set {V} (d : dict V) (k c : string) (v default : V) :
  dict_get (dict_set d k v) c default =
  if String.eqb c k then v else dict_get d c default.
Proof.
  induction d as [|[k' v'] d IH]; cbn [dict_set dict_get].
  - destruct (String.eqb c k); reflexivity.
  - destruct (String.eqb k k') eqn:Ekk; cbn [dict_get].
    + apply String.eqb_eq in Ekk; subst k'.
      destruct (String.eqb c k); reflexivity.
    + destruct (String.eqb c k') eqn:Eck; [|exact IH].
      apply String.eqb_eq in Eck; subst k'.
      rewrite String.eqb_sym in Ekk; rewrite Ekk; reflexivity.
Qed.

Lemma keys_dict_set_fresh {V} (d : dict V) (k : string) (v : V) :
  ~ In k (keys d) -> keys (dict_set d k v) = keys d ++ [k].
Proof.
  induction d as [|[k' v'] d IH]; cbn [dict_set keys map fst app]; intros Hn;
    [reflexivity|].
  destruct (String.eqb k k') eqn:E.
  - apply String.eqb_eq in E; subst k'; exfalso; apply Hn; left; reflexivity.
  - cbn [map fst]; f_equal; apply IH; intros Hin; apply Hn; right; exact Hin.
Qed.

Lemma dict_lookup_get_eq {V} (d : dict V) (k : string) (v default : V) :
  dict_lookup d k = Ok v -> dict_get d k default = v.
Proof.
  induction d as [|[k' v'] d IH]; cbn [dict_lookup dict_get]; [discriminate|].
  destruct (String.eqb k k'); [congruence | exact IH].
Qed.

(** One step of the count: [genre_count[genre] = genre_count.get(genre, 0) + 1]. *)
Lemma count_step (genre_count : dict Z) (genre : string) :
  let genre_count' :=
    dict_set genre_count genre (dict_get genre_count genre 0 + 1)%Z in
  (forall g, dict_get genre_count' g 0%Z =
             (dict_get genre_count g 0 + if String.eqb g genre then 1 else 0)%Z) /\
  (NoDup (keys genre_count) -> NoDup (keys genre_count')) /\
  (forall g, In g (keys genre_count') <-> In g (keys genre_count) \/ g = genre) /\
  fold_right Z.add 0%Z (values genre_count') =
  (fold_right Z.add 0 (values genre_count) + 1)%Z.
Proof.
  cbv zeta; split; [|split; [|split]].
  - intros g; rewrite dict_get_set.
    destruct (String.eqb g genre) eqn:E; [|lia].
    apply String.eqb_eq in E; subst g; reflexivity.
  - intros Hnd; destruct (in_dec string_dec genre (keys genre_count)) as [Hin | Hn].
    + rewrite keys_dict_set; assumption.
    + rewrite keys_dict_set_fresh by assumption.
      apply NoDup_rev in Hnd.
      rewrite <- (rev_involutive (keys genre_count ++ [genre])); apply NoDup_rev.
      rewrite rev_app_distr; cbn [rev app].
      constructor; [rewrite <- in_rev; exact Hn | exact Hnd].
  - intros g; destruct (in_dec string_dec genre (keys genre_count)) as [Hin | Hn].
    + rewrite keys_dict_set by assumption; split; [tauto|].
      intros [H | ->]; assumption.
    + rewrite keys_dict_set_fresh by assumption; rewrite in_app_iff; simpl.
      split.
      * intros [H | [<- | []]]; auto.
      * intros [H | ->]; [left; exact H | right; left; reflexivity].
  - induction genre_count as [|[k c] d IH]; cbn [dict_set dict_get values map snd fold_right].
    + lia.
    + destruct (String.eqb genre k) eqn:E; cbn [map snd fold_right]; [lia|].
      unfold values in IH; rewrite IH; lia.
Qed.

Lemma count_steps (tags : list string) (genre_count : dict Z) :
  let counted :=
    fold_left (fun genre_count genre =>
                 dict_set genre_count genre (dict_get genre_count genre 0 + 1)%Z)
              tags genre_count in
  (forall g, dict_get counted g 0%Z =
             (dict_get genre_count g 0 + Z.of_nat (count_occ string_dec tags g))%Z) /\
  (NoDup (keys genre_count) -> NoDup (keys counted)) /\
  (forall g, In g (keys counted) <-> In g (keys genre_count) \/ In g tags) /\
  fold_right Z.add 0%Z (values counted) =
  (fold_right Z.add 0 (values genre_count) + Z.of_nat (List.length tags))%Z.
Proof.
  revert genre_count; induction tags as [|tag tags IH]; intros genre_count;
    cbn [fold_left count_occ List.length].
  - repeat split; try tauto; try lia. intros [H | []]; exact H.
  - destruct (count_step genre_count tag) as (Hget & Hnd & Hin & Hsum).
    destruct (IH (dict_set genre_count tag (dict_get genre_count tag 0 + 1)%Z))
      as (Hget' & Hnd' & Hin' & Hsum').
    cbv zeta in *; split; [|split; [|split]].
    + intros g; rewrite Hget', Hget.
      destruct (string_dec tag g) as [-> | Hne].
      * rewrite String.eqb_refl; lia.
      * destruct (String.eqb g tag) eqn:E; [|lia].
        apply String.eqb_eq in E; congruence.
    + auto.
    + intros g; rewrite Hin', Hin; simpl; intuition (subst; auto).
    + rewrite Hsum', Hsum; lia.
Qed.

Lemma fold_left_flat_map {A B S} (f : S -> B -> S) (g : A -> list B)
      (l : list A) (acc : S) :
  fold_left f (flat_map g l) acc =
  fold_left (fun acc x => fold_left f (g x) acc) l acc.
Proof.
  revert acc; induction l as [|x l IH]; intros acc; cbn [flat_map fold_left];
    [reflexivity|].
  rewrite fold_left_app; apply IH.
Qed.

(** What the loop of [extract_genres_from_artists] leaves in the dictionary. *)
Lemma genre_counts_facts :
  forall artists_data : list (dict (list string)),
    let counts := extract_genres_from_artists artists_data in
    let tags := genre_tags artists_data in
    (forall g, dict_get counts g 0%Z = Z.of_nat (count_occ string_dec tags g)) /\
    NoDup (keys counts) /\
    (forall g, In g (keys counts) <-> In g tags) /\
    (forall g c, In (g, c) counts ->
       c = Z.of_nat (count_occ string_dec tags g) /\ (1 <= c)%Z) /\
    fold_right Z.add 0%Z (values counts) = Z.of_nat (List.length tags).
Proof.
  intros artists_data counts tags.
  destruct (count_steps tags []) as (Hget & Hnd & Hin & Hsum).
  assert (Hfold : counts =
            fold_left (fun genre_count genre =>
                 dict_set genre_count genre (dict_get genre_count genre 0 + 1)%Z)
              tags []).
  { unfold counts, tags, genre_tags, extract_genres_from_artists.
    rewrite fold_left_flat_map; reflexivity. }
  cbv zeta in *; rewrite <- Hfold in *.
  assert (Hnd' : NoDup (keys counts)) by (apply Hnd; constructor).
  assert (Hin' : forall g, In g (keys counts) <-> In g tags).
  { intros g; rewrite Hin; simpl; tauto. }
  split; [intros g; rewrite Hget; reflexivity|].
  split; [exact Hnd'|]; split; [exact Hin'|]; split; [|rewrite Hsum; reflexivity].
  intros g c Hitem.
  assert (Hg : In g tags) by (apply Hin'; apply (in_map fst) in Hitem; exact Hitem).
  apply In_item_lookup in Hitem; [|exact Hnd'].
  pose proof (Hget g) as Hc; cbn [dict_get] in Hc.
  rewrite (dict_lookup_get_eq _ _ _ 0%Z Hitem) in Hc.
  apply (count_occ_In string_dec) in Hg; lia.
Qed.

(** X7: [extract_genres_from_artists] counts every genre tag once per
    occurrence: the count of a genre is its number of occurrences over all
    artists (0 for a genre not listed), each genre is listed once, the listed
    genres are exactly the tags that occur, every listed count is at least 1,
    and the counts add up to the number of tags.  An artist without a
    ["genres"] entry contributes nothing. *)
Theorem genre_counts_are_occurrences :
  forall artists_data : list (dict (list string)),
    let counts := extract_genres_from_artists artists_data in
    let tags := genre_tags artists_data in
    (forall g, dict_get counts g 0%Z = Z.of_nat (count_occ string_dec tags g)) /\
    NoDup (keys counts) /\
    (forall g, In g (keys counts) <-> In g tags) /\
    (forall g c, In (g, c) counts ->
       c = Z.of_nat (count_occ string_dec tags g) /\ (1 <= c)%Z) /\
    fold_right Z.add 0%Z (values counts) = Z.of_nat (List.length tags).
Proof. exact genre_counts_facts. Qed.

Lemma genre_counts_are_occurrences_witness :
  let artists_data :=
    [[("genres", ["pop"; "rock"])]; [("name", ["no genres here"])];
     [("genres", ["pop"])]] in
  2%Z = Z.of_nat (count_occ string_dec (genre_tags artists_data) "pop") /\ (1 <= 2)%Z.
Proof.
  intros artists_data.
  destruct (genre_counts_are_occurrences artists_data) as (_ & _ & _ & Hitem & _).
  apply Hitem; vm_compute; tauto.
Defined.

(** ** The top genres of the statistics (app/main.py) *)

Lemma insert_by_count_perm (x : string * Z) (l : list (string * Z)) :
  Permutation (x :: l) (insert_by_count x l).
Proof.
  induction l as [|y l IH]; cbn [insert_by_count]; [reflexivity|].
  destruct (snd x <? snd y)%Z; [|reflexivity].
  rewrite perm_swap; constructor; exact IH.
Qed.

Lemma sorted_by_count_perm (l : list (string * Z)) :
  Permutation l (sorted_by_count l).
Proof.
  induction l as [|x l IH]; cbn [sorted_by_count fold_right]; [constructor|].
  rewrite <- insert_by_count_perm; constructor; exact IH.
Qed.

Lemma insert_by_count_sorted (x : string * Z) (l : list (string * Z)) :
  StronglySorted count_order l -> StronglySorted count_order (insert_by_count x l).
Proof.
  induction 1 as [|y l Hs IH Hall]; cbn [insert_by_count]; [repeat constructor|].
  destruct (snd x <? snd y)%Z eqn:E.
  - apply Z.ltb_lt in E; constructor; [exact IH|].
    apply Forall_forall; intros z Hz.
    apply (Permutation_in _ (Permutation_sym (insert_by_count_perm x l))) in Hz.
    destruct Hz as [<- | Hz]; [unfold count_order; lia|].
    rewrite Forall_forall in Hall; auto.
  - apply Z.ltb_ge in E; constructor; [constructor; assumption|].
    constructor; [exact E|].
    apply Forall_forall; intros z Hz; rewrite Forall_forall in Hall.
    specialize (Hall z Hz); unfold count_order in *; lia.
Qed.

Lemma sorted_by_count_sorted (l : list (string * Z)) :
  StronglySorted count_order (sorted_by_count l).
Proof.
  induction l as [|x l IH]; cbn [sorted_by_count fold_right]; [constructor|].
  apply insert_by_count_sorted; exact IH.
Qed.

Lemma StronglySorted_split {A} (R : A -> A -> Prop) (l1 l2 : list A) :
  StronglySorted R (l1 ++ l2) ->
  StronglySorted R l1 /\ forall x y, In x l1 -> In y l2 -> R x y.
Proof.
  induction l1 as [|a l1 IH]; cbn [app]; intros Hs.
  - split; [constructor | intros x y []].
  - inversion Hs as [|? ? Hs' Hall]; subst; destruct (IH Hs') as (Hs1 & Hcross).
    rewrite Forall_forall in Hall; split.
    + constructor; [exact Hs1|].
      apply Forall_forall; intros z Hz; apply Hall, in_or_app; left; exact Hz.
    + intros x y [<- | Hx] Hy; [apply Hall, in_or_app; right; exact Hy | auto].
Qed.

Lemma genre_tags_genres_only (artists : list Artist.t) :
  genre_tags (map genres_only artists) = all_genres artists.
Proof.
  unfold genre_tags, all_genres; induction artists as [|a artists IH];
    cbn [map flat_map]; [reflexivity|].
  rewrite IH; reflexivity.
Qed.

(** X8: the top genres of the statistics are the ten most frequent genres of
    the top artists (all of them when there are fewer than ten): each listed
    pair holds a genre and its number of occurrences, no genre is listed
    twice, the list is in descending order of the counts, and no genre left
    out occurs more often than a listed one. *)
Theorem top_genres_most_frequent :
  forall top_artists : list Artist.t,
    let counts := extract_genres_from_artists (map genres_only top_artists) in
    let top := top_genres top_artists in
    List.length top = Nat.min 10 (List.length counts) /\
    (forall g c, In (g, c) top ->
       c = Z.of_nat (count_occ string_dec (all_genres top_artists) g) /\ (1 <= c)%Z) /\
    NoDup (map fst top) /\
    StronglySorted count_order top /\
    (forall listed other,
       In listed top -> In other counts -> ~ In other top ->
       (snd other <= snd listed)%Z).
Proof.
  intros top_artists counts top.
  pose proof (sorted_by_count_perm counts) as Hperm.
  pose proof (sorted_by_count_sorted counts) as Hsorted.
  assert (Htop : top = firstn 10 (sorted_by_count counts)) by reflexivity.
  rewrite <- (firstn_skipn 10 (sorted_by_count counts)), <- Htop in Hperm, Hsorted.
  destruct (StronglySorted_split _ _ _ Hsorted) as (Hs1 & Hcross).
  destruct (genre_counts_facts (map genres_only top_artists))
    as (_ & Hnd & _ & Hitem & _).
  fold counts in Hnd, Hitem; rewrite genre_tags_genres_only in Hitem.
  split; [|split; [|split; [|split]]].
  - rewrite Htop, length_firstn, <- (Permutation_length (sorted_by_count_perm counts)).
    reflexivity.
  - intros g c Hin; apply Hitem.
    apply (Permutation_in _ (Permutation_sym Hperm)), in_or_app; left; exact Hin.
  - apply (Permutation_map fst) in Hperm.
    apply (Permutation_NoDup Hperm) in Hnd; rewrite map_app in Hnd.
    apply NoDup_app_remove_r in Hnd; exact Hnd.
  - exact Hs1.
  - intros listed other Hl Ho Hnot; apply (Hcross listed other Hl).
    apply (Permutation_in _ Hperm), in_app_or in Ho; tauto.
Qed.

Lemma top_genres_most_frequent_witness :
  let top_artists := [artist ["pop"; "rock"] 50; artist ["pop"] 60] in
  1%Z = Z.of_nat (count_occ string_dec (all_genres top_artists) "rock") /\ (1 <= 1)%Z.
Proof.
  intros top_artists.
  destruct (top_genres_most_frequent top_artists) as (_ & Hitem & _).
  apply Hitem; vm_compute; tauto.
Defined.

(** ** Average features and the mood score *)

Lemma for_each_ext {A S : Type} (xs : list A) (body body' : S -> A -> result S)
      (acc : S) :
  (forall s x, In x xs -> body s x = body' s x) ->
  for_each xs body acc = for_each xs body' acc.
Proof.
  revert acc; induction xs as [|x xs IH]; intros acc Hext; cbn [for_each];
    [reflexivity|].
  rewrite (Hext acc x) by (left; reflexivity).
  destruct (body' acc x); cbn [bind]; [|reflexivity].
  apply IH; intros s y Hy; apply Hext; right; exact Hy.
Qed.

(** [calculate_average_features] on a non-empty list: one entry per feature
    key, in the order of [feature_keys]. *)
Lemma calculate_average_features_eq {T} `{Num T}
      (f : dict (option T)) (fs : list (dict (option T))) :
  calculate_average_features (f :: fs) =
  Ok (map (fun key => (key, average_value key (f :: fs))) feature_keys).
Proof.
  unfold calculate_average_features; cbn [is_empty].
  rewrite (for_each_ext _ _
             (fun averages key =>
                Ok (dict_set averages key (average_value key (f :: fs))))).
  - reflexivity.
  - intros averages key _; cbv zeta; unfold average_value, truediv_int.
    destruct (present_values key (f :: fs)) as [|v vs]; cbn [is_empty negb];
      [reflexivity|].
    replace (Z.of_nat (List.length (v :: vs)) =? 0)%Z with false; [reflexivity|].
    symmetry; apply Z.eqb_neq; cbn [List.length]; lia.
Qed.

(** X9: [calculate_average_features] never raises.  An empty list gives the
    empty mapping; a non-empty one gives all eight feature keys, in their
    fixed order, a key that no dictionary holds (or holds only as null)
    getting 0.0 and every other key the sum of its non-null values over
    their number, nulls and missing keys being left out of both. *)
Theorem average_features_total :
  forall T (N : Num T) (features_list : list (dict (option T))),
    (features_list = [] -> calculate_average_features features_list = Ok []) /\
    (features_list <> [] ->
     exists averages,
       calculate_average_features features_list = Ok averages /\
       keys averages = feature_keys /\
       forall key, In key feature_keys ->
         dict_lookup averages key =
         Ok (match present_values key features_list with
             | [] => of_Q 0.0
             | _ :: _ =>
                 div (sum (present_values key features_list))
                     (of_Z (Z.of_nat
                              (List.length (present_values key features_list))))
             end)).
Proof.
  intros T N features_list; split; [intros ->; reflexivity|].
  intros Hne; destruct features_list as [|f fs]; [congruence|].
  eexists; split; [apply calculate_average_features_eq|]; split; [reflexivity|].
  intros key Hkey; unfold feature_keys in Hkey; cbn [In] in Hkey.
  unfold average_value.
  destruct Hkey as [<-|[<-|[<-|[<-|[<-|[<-|[<-|[<-|[]]]]]]]]]; reflexivity.
Qed.

Lemma average_features_total_witness :
  exists averages,
    @calculate_average_features Q _
      [[("energy", Some 0.5%Q); ("valence", None)]; [("energy", Some 1%Q)]]
    = Ok averages /\
    dict_lookup averages "energy" = Ok (3 # 4) /\
    dict_lookup averages "valence" = Ok 0%Q.
Proof.
  destruct (average_features_total Q _
              [[("energy", Some 0.5%Q); ("valence", None)]; [("energy", Some 1%Q)]])
    as (_ & Hsome).
  destruct Hsome as (averages & Ha & _ & Hv); [discriminate|].
  exists averages; split; [exact Ha|]; split.
  - rewrite (Hv "energy") by (simpl; tauto); vm_compute; reflexivity.
  - rewrite (Hv "valence") by (simpl; tauto); vm_compute; reflexivity.
Defined.

Lemma present_values_features_data {T} `{Num T} (key : string)
      (field : AudioFeatures.t T -> T) (fs : list (AudioFeatures.t T)) :
  (forall f, dict_get (features_data f) key None = Some (field f)) ->
  present_values key (map features_data fs) = map field fs.
Proof.
  intros Hfield; unfold present_values; induction fs as [|f fs IH];
    cbn [map flat_map]; [reflexivity|].
  rewrite Hfield, IH; reflexivity.
Qed.

Lemma exact_average_value (key : string) (v : Q) (vs : list Q)
      (features_list : list (dict (option Q))) :
  present_values key features_list = v :: vs ->
  average_value key features_list = Qred (Qmean (v :: vs)).
Proof.
  intros E; unfold average_value; rewrite E; cbn [div Exact.Q_num].
  apply Qred_complete; unfold Qmean, of_Z; cbn [of_Q Exact.Q_num].
  rewrite sum_Qsum, Qred_correct.
  assert (Hfold : forall l acc, (fold_left Qplus l acc == acc + Qsum l)%Q).
  { induction l as [|z l IH]; intros acc; cbn [fold_left];
      [unfold Qsum; cbn [fold_right]; ring | rewrite IH, Qsum_cons; ring]. }
  rewrite Hfold; unfold Qdiv; ring.
Qed.

(** The vectors behind the difference in binary64: energies 0.1, 0.2, 0.3. *)
Lemma averages_differ_in_binary64 :
  let energies := [Binary64.nearest 0.1; Binary64.nearest 0.2; Binary64.nearest 0.3] in
  @mean float _ energies = Ok (Binary64.nearest 0.2) /\
  PrimFloat.div (sum energies) (of_Z 3) = Binary64.nearest 0.20000000000000004 /\
  PrimFloat.div (Binary64.compensated_sum energies) (of_Z 3)
  = Binary64.nearest 0.19999999999999998.
Proof. repeat split; vm_compute; reflexivity. Qed.

Lemma exact_average_of_field (key : string) (field : AudioFeatures.t Q -> Q)
      (f : AudioFeatures.t Q) (fs : list (AudioFeatures.t Q)) :
  (forall f, dict_get (features_data f) key None = Some (field f)) ->
  average_value key (map features_data (f :: fs)) = Qred (Qmean (map field (f :: fs))).
Proof.
  intros Hfield; apply exact_average_value.
  rewrite (present_values_features_data key field) by exact Hfield; reflexivity.
Qed.

Lemma exact_mean_of_field (field : AudioFeatures.t Q -> Q)
      (f : AudioFeatures.t Q) (fs : list (AudioFeatures.t Q)) :
  mean (map field (f :: fs)) = Ok (Qred (Qmean (map field (f :: fs)))).
Proof. apply exact_mean_Q. Qed.

Lemma averages_lookup {T} `{Num T} (features_list : list (dict (option T)))
      (key : string) :
  In key feature_keys ->
  dict_lookup (map (fun key => (key, average_value key features_list)) feature_keys)
              key = Ok (average_value key features_list).
Proof.
  unfold feature_keys; cbn [In].
  intros [<-|[<-|[<-|[<-|[<-|[<-|[<-|[<-|[]]]]]]]]]; reflexivity.
Qed.

(** X10: on the feature vectors of the statistics, and in exact arithmetic,
    the averages [calculate_average_features] reports for energy,
    danceability, valence, acousticness and instrumentalness are the very
    means the analyzer's audio sub-scorer compares with its thresholds.  In
    binary64 the two differ: the statistics add the floats one by one, the
    analyzer takes the exact mean (for the energies 0.1, 0.2, 0.3 the
    statistics do not report 0.2). *)
Theorem stats_averages_are_analyzer_means :
  (forall (f : AudioFeatures.t Q) (fs : list (AudioFeatures.t Q)),
   exists averages,
     calculate_average_features (map features_data (f :: fs)) = Ok averages /\
     dict_lookup averages "energy" = mean (map AudioFeatures.energy (f :: fs)) /\
     dict_lookup averages "danceability" =
     mean (map AudioFeatures.danceability (f :: fs)) /\
     dict_lookup averages "valence" = mean (map AudioFeatures.valence (f :: fs)) /\
     dict_lookup averages "acousticness" =
     mean (map AudioFeatures.acousticness (f :: fs)) /\
     dict_lookup averages "instrumentalness" =
     mean (map AudioFeatures.instrumentalness (f :: fs))) /\
  (exists averages,
     @calculate_average_features float _ (map features_data three_energies)
     = Ok averages /\
     @mean float _ (map AudioFeatures.energy three_energies) = Ok (of_Q 0.2) /\
     dict_lookup averages "energy" <> Ok (of_Q 0.2)).
Proof.
  split.
  - intros f fs; eexists; split; [apply calculate_average_features_eq|].
    rewrite !averages_lookup by (unfold feature_keys; simpl; tauto).
    rewrite !exact_mean_of_field.
    repeat split; f_equal; apply exact_average_of_field; reflexivity.
  - eexists; split; [vm_compute; reflexivity|].
    split; [vm_compute; reflexivity | vm_compute; discriminate].
Qed.

Lemma Qmean_unit_range (x : Q) (l : list Q) :
  Forall (fun v => (0 <= v)%Q /\ (v <= 1)%Q) (x :: l) ->
  (0 <= Qmean (x :: l))%Q /\ (Qmean (x :: l) <= 1)%Q.
Proof.
  intros Hall; unfold Qmean.
  assert (Hfold : forall l acc, (fold_left Qplus l acc == acc + Qsum l)%Q).
  { induction l0 as [|z l0 IH]; intros acc; cbn [fold_left];
      [unfold Qsum; cbn [fold_right]; ring | rewrite IH, Qsum_cons; ring]. }
  assert (Hsum : forall l, Forall (fun v => (0 <= v)%Q /\ (v <= 1)%Q) l ->
             (0 <= Qsum l)%Q /\ (Qsum l <= inject_Z (Z.of_nat (List.length l)))%Q).
  { induction 1 as [|v l0 (Hv0 & Hv1) Hl (IH0 & IH1)].
    - split; vm_compute; discriminate.
    - rewrite Qsum_cons; cbn [List.length]; rewrite Nat2Z.inj_succ.
      unfold Z.succ; rewrite inject_Z_plus; change (inject_Z 1) with 1%Q.
      split; lra. }
  destruct (Hsum _ Hall) as (H0 & H1); rewrite Hfold.
  assert (Hpos : (0 < inject_Z (Z.of_nat (List.length (x :: l))))%Q).
  { change 0%Q with (inject_Z 0); rewrite <- Zlt_Qlt; cbn [List.length]; lia. }
  split.
  - apply Qle_shift_div_l; [exact Hpos | lra].
  - apply Qle_shift_div_r; [exact Hpos | lra].
Qed.

(** X11: when every valence and every energy lies between 0 and 1, the mood
    score of the statistics is computed without an exception and lies
    between 0 and 1 (exact arithmetic); without any feature vector it is 0. *)
Theorem mood_score_in_unit_range :
  forall fs : list (AudioFeatures.t Q),
    Forall unit_range fs ->
    exists averages mood,
      calculate_average_features (map features_data fs) = Ok averages /\
      mood_score averages = Ok mood /\
      (0 <= mood)%Q /\ (mood <= 1)%Q /\
      (fs = [] -> mood = 0%Q).
Proof.
  intros fs Hall; destruct fs as [|f fs].
  - exists [], 0%Q; repeat split; try reflexivity; vm_compute; discriminate.
  - set (averages :=
           map (fun key => (key, average_value key (map features_data (f :: fs))))
               feature_keys).
    exists averages,
      (div (add (dict_get averages "valence" (of_Z 0))
                (dict_get averages "energy" (of_Z 0)))
           (of_Z 2)).
    split; [apply calculate_average_features_eq|].
    split; [reflexivity|]; unfold averages.
    rewrite (dict_lookup_get_eq _ "valence" _ _
               (@averages_lookup Q _ _ "valence"
                  ltac:(unfold feature_keys; simpl; tauto))).
    rewrite (dict_lookup_get_eq _ "energy" _ _
               (@averages_lookup Q _ _ "energy"
                  ltac:(unfold feature_keys; simpl; tauto))).
    rewrite (exact_average_of_field "valence" AudioFeatures.valence) by reflexivity.
    rewrite (exact_average_of_field "energy" AudioFeatures.energy) by reflexivity.
    assert (Hv : Forall (fun v => (0 <= v)%Q /\ (v <= 1)%Q)
                        (map AudioFeatures.valence (f :: fs))).
    { apply Forall_forall; intros v Hv; apply in_map_iff in Hv.
      destruct Hv as (g & <- & Hg); rewrite Forall_forall in Hall.
      destruct (Hall g Hg) as (? & ? & _); tauto. }
    assert (He : Forall (fun v => (0 <= v)%Q /\ (v <= 1)%Q)
                        (map AudioFeatures.energy (f :: fs))).
    { apply Forall_forall; intros v Hv'; apply in_map_iff in Hv'.
      destruct Hv' as (g & <- & Hg); rewrite Forall_forall in Hall.
      destruct (Hall g Hg) as (_ & _ & ? & ?); tauto. }
    destruct (Qmean_unit_range (AudioFeatures.valence f)
                (map AudioFeatures.valence fs) Hv) as (Hv0 & Hv1).
    destruct (Qmean_unit_range (AudioFeatures.energy f)
                (map AudioFeatures.energy fs) He) as (He0 & He1).
    unfold of_Z; cbn [add div of_Q Exact.Q_num]; change (inject_Z 2) with 2%Q.
    split; [|split; [|discriminate]]; rewrite !Qred_correct; cbn [map].
    + apply Qle_shift_div_l; [reflexivity | lra].
    + apply Qle_shift_div_r; [reflexivity | lra].
Qed.

Lemma mood_score_in_unit_range_witness :
  exists averages mood,
    calculate_average_features (map features_data (@quiet_features Q _)) = Ok averages /\
    mood_score averages = Ok mood /\
    (0 <= mood)%Q /\ (mood <= 1)%Q /\
    (@quiet_features Q _ = [] -> mood = 0%Q).
Proof.
  apply mood_score_in_unit_range.
  repeat constructor; vm_compute; discriminate.
Defined.

(** ** Batches of track identifiers (app/spotify_client.py) *)

Lemma firstn_plus {A} (n m : nat) (l : list A) :
  firstn (n + m) l = firstn n l ++ firstn m (skipn n l).
Proof.
  revert l; induction n as [|n IH]; intros l; [reflexivity|].
  destruct l as [|x l]; cbn [Nat.add firstn skipn app].
  - rewrite firstn_nil; reflexivity.
  - rewrite IH; reflexivity.
Qed.

Lemma concat_slices {A} (size : nat) (l : list A) (count : nat) :
  List.concat (map (fun k => firstn size (skipn (k * size) l)) (seq 0 count))
  = firstn (count * size) l.
Proof.
  induction count as [|count IH]; [reflexivity|].
  rewrite seq_S, map_app, concat_app, IH; cbn [Nat.add map List.concat].
  rewrite app_nil_r, <- firstn_plus; f_equal; lia.
Qed.

Lemma batches_slices (track_ids : list string) :
  batches track_ids =
  map (fun k => firstn 100 (skipn (k * 100) track_ids))
      (seq 0 ((List.length track_ids + 100 - 1) / 100)).
Proof. unfold batches, range_step; rewrite map_map; reflexivity. Qed.

Lemma batches_concat (track_ids : list string) :
  List.concat (batches track_ids) = track_ids.
Proof.
  rewrite batches_slices, concat_slices; apply firstn_all2.
  pose proof (Nat.div_mod_eq (List.length track_ids + 100 - 1) 100).
  pose proof (Nat.mod_upper_bound (List.length track_ids + 100 - 1) 100).
  lia.
Qed.

(** X12: the batches of [get_audio_features] cut the identifier list into
    consecutive slices: put end to end they give the list back (no
    identifier is lost, repeated or reordered), every batch holds between 1
    and 100 identifiers, all but the last hold exactly 100, and their number
    is the length divided by 100, rounded up. *)
Theorem batches_partition :
  forall track_ids : list string,
    List.concat (batches track_ids) = track_ids /\
    Forall (fun batch => (1 <= List.length batch <= 100)%nat) (batches track_ids) /\
    (forall done batch rest,
       batches track_ids = done ++ batch :: rest -> rest <> [] ->
       List.length batch = 100%nat) /\
    List.length (batches track_ids) = ((List.length track_ids + 99) / 100)%nat.
Proof.
  intros track_ids; split; [apply batches_concat|].
  rewrite batches_slices.
  set (n := List.length track_ids).
  replace (n + 100 - 1)%nat with (n + 99)%nat by lia.
  set (count := ((n + 99) / 100)%nat).
  assert (Hcount : (100 * count <= n + 99 < 100 * count + 100)%nat).
  { unfold count; pose proof (Nat.div_mod_eq (n + 99) 100) as Hd.
    pose proof (Nat.mod_upper_bound (n + 99) 100); lia. }
  split; [|split].
  - apply Forall_forall; intros batch Hb; apply in_map_iff in Hb.
    destruct Hb as (k & <- & Hk); apply in_seq in Hk.
    rewrite length_firstn, length_skipn; fold n; lia.
  - intros done batch rest Hsplit Hrest.
    assert (Hlen : List.length (done ++ batch :: rest) = count)
      by (rewrite <- Hsplit, length_map, length_seq; reflexivity).
    rewrite length_app in Hlen; cbn [List.length] in Hlen.
    assert (Hrest' : (1 <= List.length rest)%nat)
      by (destruct rest; [congruence | cbn [List.length]; lia]).
    assert (Hnth : nth (List.length done) (done ++ batch :: rest) [] = batch)
      by (rewrite app_nth2, Nat.sub_diag by lia; reflexivity).
    rewrite <- Hsplit in Hnth.
    rewrite (nth_indep _ [] (firstn 100 (skipn (0 * 100) track_ids))) in Hnth
      by (rewrite length_map, length_seq; lia).
    rewrite (map_nth (fun k => firstn 100 (skipn (k * 100) track_ids))) in Hnth.
    rewrite seq_nth in Hnth by lia; cbn [Nat.add] in Hnth.
    rewrite <- Hnth, length_firstn, length_skipn; fold n; lia.
  - rewrite length_map, length_seq; reflexivity.
Qed.

Lemma batches_partition_witness :
  let track_ids := repeat "id" 250 in
  batches track_ids = [repeat "id" 100] ++ repeat "id" 100 :: [repeat "id" 50] /\
  [repeat "id" 50] <> [] /\
  List.length (repeat "id" 100) = 100%nat.
Proof.
  intros track_ids.
  split; [reflexivity|]; split; [discriminate|].
  destruct (batches_partition track_ids) as (_ & _ & Hfull & _).
  apply (Hfull [repeat "id" 100] (repeat "id" 100) [repeat "id" 50]);
    [reflexivity | discriminate].
Defined.

(** [get_audio_features] as a loop over the batches. *)
Lemma get_audio_features_batches {F} (request : string -> result (list (option F)))
      (track_ids : list string) :
  get_audio_features request track_ids =
  for_each (batches track_ids)
           (fun features batch_ids =>
              data <- request (String.concat "," batch_ids) ;;
              Ok (features ++ non_null data))
           [].
Proof.
  unfold get_audio_features, batches; rewrite for_each_map.
  destruct track_ids; reflexivity.
Qed.

Lemma for_each_requests {F} (request : string -> result (list (option F)))
      (answer : list string -> list (option F)) (todo : list (list string))
      (features : list F) :
  (forall batch, In batch todo -> request (String.concat "," batch) = Ok (answer batch)) ->
  for_each todo
           (fun features batch_ids =>
              data <- request (String.concat "," batch_ids) ;;
              Ok (features ++ non_null data))
           features
  = Ok (features ++ flat_map (fun batch => non_null (answer batch)) todo).
Proof.
  revert features; induction todo as [|batch todo IH]; intros features Hok;
    cbn [for_each flat_map].
  - rewrite app_nil_r; reflexivity.
  - rewrite (Hok batch) by (left; reflexivity); cbn [bind].
    rewrite IH by (intros b Hb; apply Hok; right; exact Hb).
    rewrite app_assoc; reflexivity.
Qed.

Lemma non_null_length {F} (data : list (option F)) :
  (List.length (non_null data) <= List.length data)%nat.
Proof.
  unfold non_null; induction data as [|[f|] data IH]; cbn [flat_map app List.length]; lia.
Qed.

Lemma answers_length {F} (answer : list string -> list (option F))
      (todo : list (list string)) :
  (forall batch, In batch todo ->
     (List.length (answer batch) <= List.length batch)%nat) ->
  (List.length (flat_map (fun batch => non_null (answer batch)) todo)
   <= List.length (List.concat todo))%nat.
Proof.
  induction todo as [|batch todo IH]; intros Hlen; cbn [flat_map List.concat];
    [apply Nat.le_refl|].
  rewrite !length_app.
  pose proof (non_null_length (answer batch)).
  pose proof (Hlen batch (or_introl eq_refl)).
  specialize (IH (fun b Hb => Hlen b (or_intror Hb))); lia.
Qed.

(** X13: [get_audio_features] (the function under its cache decorator) asks
    nothing for an empty identifier list: the result is empty whatever the
    catalog would answer.  When every batch is answered, it returns the
    non-null entries of the answers, batch after batch, in order; and if no
    answer is longer than its batch, it returns at most one feature record
    per identifier. *)
Theorem get_audio_features_requests :
  forall F (request : string -> result (list (option F))),
    get_audio_features request [] = Ok [] /\
    (forall track_ids answer,
       (forall batch, In batch (batches track_ids) ->
          request (String.concat "," batch) = Ok (answer batch)) ->
       exists features,
         get_audio_features request track_ids = Ok features /\
         features = flat_map (fun batch => non_null (answer batch)) (batches track_ids) /\
         ((forall batch, In batch (batches track_ids) ->
             (List.length (answer batch) <= List.length batch)%nat) ->
          (List.length features <= List.length track_ids)%nat)).
Proof.
  intros F request; split; [reflexivity|].
  intros track_ids answer Hok; eexists; split; [|split; [reflexivity|]].
  - rewrite get_audio_features_batches.
    rewrite (for_each_requests request answer) by exact Hok; reflexivity.
  - intros Hlen; rewrite <- (batches_concat track_ids) at 2.
    apply answers_length; exact Hlen.
Qed.

Lemma get_audio_features_requests_witness :
  get_audio_features
    (fun ids => if String.eqb ids "a,b" then Ok [Some 1%Z; None] else Ok [])
    ["a"; "b"] = Ok [1%Z].
Proof.
  destruct (get_audio_features_requests Z
              (fun ids => if String.eqb ids "a,b" then Ok [Some 1%Z; None]
                          else Ok [])) as (_ & Hok).
  destruct (Hok ["a"; "b"] (fun _ => [Some 1%Z; None])) as (features & Hrun & -> & _).
  - intros batch [<- | []]; reflexivity.
  - exact Hrun.
Defined.
